(** * statsbox.simulation.montecarlo

  A shallow embedding of [MonteCarlo] (src/statsbox/simulation/montecarlo.py)
  and the verification of its specification.

  The Python class draws, for a number of walks, one array of normal
  samples per category, pools the samples of the control category and of
  all other categories, and reports the samples that fall on the wrong
  side of a threshold together with five statistics.

  Layout of the development:
  - exceptions and the generator's error monad;
  - the arithmetic of array elements, as an interface with two instances:
    IEEE 754 binary64 (what numpy computes with) and the real numbers
    extended with a not-a-number value (their idealisation);
  - the numpy routines the class calls;
  - the class itself: [__init__], [gen_dists], [apply_criteria];
  - the theorems. *)

From Stdlib Require Import String.
From Stdlib Require Import List ZArith Lia Bool Permutation Sorted.
From Stdlib Require Import Floats.PrimFloat Numbers.Cyclic.Int63.Uint63.
From Stdlib Require Floats.
From Stdlib Require Import Reals Lra.
Import ListNotations.

Set Implicit Arguments.

(** ** Exceptions *)

(** The one exception the class raises itself, and the one numpy raises
    for a negative [scale] or a negative [size]. *)
Inductive exn : Type :=
| ValueError (msg : string).

Inductive result (A : Type) : Type :=
| Ok (a : A)
| Raise (e : exn).

Arguments Ok {A} a.
Arguments Raise {A} e.

Definition bind {A B : Type} (r : result A) (k : A -> result B) : result B :=
  match r with
  | Ok a => k a
  | Raise e => Raise e
  end.

Notation "x <- r ;; k" := (bind r (fun x => k))
  (at level 61, r at next level, right associativity).
Notation "' p <- r ;; k" := (bind r (fun p => k))
  (at level 61, p pattern, r at next level, right associativity).

(** ** Arithmetic of array elements *)

(** numpy arrays of dtype float64 hold the elements.  The operations the
    class and the numpy routines below apply to them: *)
Class Float (F : Type) : Type := {
  nan : F;                      (* np.nan *)
  of_nat : nat -> F;            (* conversion of a count *)
  fadd : F -> F -> F;
  fsub : F -> F -> F;
  fmul : F -> F -> F;
  fdiv : F -> F -> F;
  fsqrt : F -> F;
  feqb : F -> F -> bool;        (* x == y *)
  fltb : F -> F -> bool;        (* x < y *)
  fleb : F -> F -> bool         (* x <= y *)
}.

(** [x > y] is [y < x], [x != x] holds for not-a-number only. *)
Definition fgtb {F} `{Float F} (x y : F) : bool := fltb y x.
Definition isnan {F} `{Float F} (x : F) : bool := negb (feqb x x).

(** The zero with the sign bit set, -0.0: it equals 0 and its reciprocal
    is negative.  [np.signbit] of a value that is not nan: the value is
    negative, or it is that zero. *)
Definition negative_zero {F} `{Float F} (x : F) : bool :=
  feqb x (of_nat 0) && fltb (fdiv (of_nat 1) x) (of_nat 0).
Definition signbit {F} `{Float F} (x : F) : bool :=
  fltb x (of_nat 0) || negative_zero x.

(** *** IEEE 754 binary64 *)

Module Binary64.

Definition float_of_nat (n : nat) : float :=
  PrimFloat.of_uint63 (Uint63.of_Z (Z.of_nat n)).

#[export] Instance binary64 : Float float := {|
  nan := PrimFloat.nan;
  of_nat := float_of_nat;
  fadd := PrimFloat.add;
  fsub := PrimFloat.sub;
  fmul := PrimFloat.mul;
  fdiv := PrimFloat.div;
  fsqrt := PrimFloat.sqrt;
  feqb := PrimFloat.eqb;
  fltb := PrimFloat.ltb;
  fleb := PrimFloat.leb
|}.

(** The order [np.sort] sorts by, on the specification of binary64
    values: the comparison of the standard, and nan after all others. *)
Definition spec_sort_lt (f1 f2 : SpecFloat.spec_float) : bool :=
  match SpecFloat.SFcompare f1 f2 with
  | Some Lt => true
  | Some _ => false
  | None =>
      match f2, f1 with
      | SpecFloat.S754_nan, SpecFloat.S754_nan => false
      | SpecFloat.S754_nan, _ => true
      | _, _ => false
      end
  end.

End Binary64.

(** ** The numpy routines *)

Section Numpy.

Context {F : Type} `{Float F}.

(** [np.array([])] and [np.concatenate((a, b))]. *)
Definition np_empty : list F := [].
Definition np_concatenate (a b : list F) : list F := a ++ b.

(** [np.where(mask)[0]]: the positions at which [mask] holds, ascending. *)
Fixpoint where_from (i : nat) (mask : list bool) : list nat :=
  match mask with
  | [] => []
  | b :: mask' =>
      if b then i :: where_from (S i) mask' else where_from (S i) mask'
  end.
Definition np_where (mask : list bool) : list nat := where_from 0 mask.

(** [a[idx]] for an array of positions [idx]. *)
Definition np_take (a : list F) (idx : list nat) : list F :=
  map (fun i => nth i a nan) idx.

(** [a < c] and [a > c], element by element. *)
Definition np_less (a : list F) (c : F) : list bool :=
  map (fun x => fltb x c) a.
Definition np_greater (a : list F) (c : F) : list bool :=
  map (fun x => fgtb x c) a.

(** [np.sort]: ascending, not-a-number last.  numpy's order on floats is
    [a < b or (b != b and a == a)]; values that compare equal, as 0.0 and
    -0.0, are left here in the order of the argument. *)
Definition sort_lt (a b : F) : bool :=
  fltb a b || (isnan b && negb (isnan a)).

Fixpoint insert (x : F) (l : list F) : list F :=
  match l with
  | [] => [x]
  | y :: l' => if sort_lt y x then y :: insert x l' else x :: y :: l'
  end.

Definition np_sort (a : list F) : list F := fold_right insert [] a.

(** [np.minimum] and [np.maximum] let a not-a-number through. *)
Definition np_minimum (x y : F) : F := if fleb x y || isnan x then x else y.
Definition np_maximum (x y : F) : F := if fleb y x || isnan x then x else y.

(** The value of [np.min] and [np.max] on an array that is not empty
    (on an empty one, which numpy refuses, [nan]); the calls with their
    exception are [np_min_raising] and [np_max_raising] below. *)
Definition np_min (a : list F) : F :=
  match a with
  | [] => nan
  | x :: a' => fold_left np_minimum a' x
  end.
Definition np_max (a : list F) : F :=
  match a with
  | [] => nan
  | x :: a' => fold_left np_maximum a' x
  end.

(** [np.min] and [np.max] with their error: numpy raises [ValueError] on
    an array without elements. *)
Definition np_min_raising (a : list F) : result F :=
  match a with
  | [] => Raise (ValueError
      "zero-size array to reduction operation minimum which has no identity")
  | _ :: _ => Ok (np_min a)
  end.
Definition np_max_raising (a : list F) : result F :=
  match a with
  | [] => Raise (ValueError
      "zero-size array to reduction operation maximum which has no identity")
  | _ :: _ => Ok (np_max a)
  end.

(** [np.mean]: the sum, accumulated from the left, over the count (numpy
    adds the elements in this order for fewer than 8 of them, and pair by
    pair from 8 on). *)
Definition np_sum (a : list F) : F := fold_left fadd a (of_nat 0).
Definition np_mean (a : list F) : F := fdiv (np_sum a) (of_nat (length a)).

(** [np.median]: the middle element of the sorted array, or the mean of
    the two middle ones; not-a-number as soon as the array holds one
    (it is then the last of the sorted array). *)
Definition np_median (a : list F) : F :=
  let s := np_sort a in
  let n := length s in
  if isnan (last s (of_nat 0)) then nan
  else if Nat.even n
       then np_mean [nth (n / 2 - 1) s nan; nth (n / 2) s nan]
       else np_mean [nth (n / 2) s nan].

(** [np.std]: the population standard deviation,
    [sqrt(mean((a - mean(a))**2))]. *)
Definition np_std (a : list F) : F :=
  let m := np_mean a in
  fsqrt (np_mean (map (fun x => let d := fsub x m in fmul d d) a)).

End Numpy.

(** ** The random source *)

(** [np.random.RandomState]: the constructor from a seed, and [normal(loc,
    scale, size)], which returns [size] draws and advances the state, or
    raises [ValueError].  The generator's state is passed explicitly. *)
Class RandomState (F G : Type) : Type := {
  seed : Z -> G;
  normal : G -> F -> F -> Z -> result (list F * G)
}.

(** numpy refuses an array of [2**63] elements or more. *)
Definition max_size : Z := (2 ^ 63 - 1)%Z.

(** What numpy's [normal] does for arguments it accepts.  It accepts a
    scale that is nan or has its sign bit clear (it raises "scale < 0" for
    a negative scale and for -0.0), and a size from 0 to what it can
    allocate, [limit] here, itself at most [max_size]; it then returns
    exactly [size] draws. *)
Definition normal_spec (F G : Type) `{Float F} `{RandomState F G}
    (limit : Z) : Prop :=
  forall (g : G) (loc scale : F) (size : Z),
    signbit scale = false -> (0 <= size <= limit)%Z ->
    exists xs g', normal g loc scale size = Ok (xs, g') /\
                  length xs = Z.to_nat size.

Arguments normal_spec F G {_ _} limit.

(** ** The class *)

Section MonteCarlo.

Context {F G : Type} `{Float F} `{RandomState F G}.

Record MonteCarlo : Type := {
  means : list F;
  std_devs : list F;
  samples : list Z;
  walks : Z;
  categories : nat;
  _rng : G
}.

(** One walk: one array of samples per category. *)
Definition walk : Type := list (list F).

Definition unequal_categories : string :=
  "number of categories for means, std_dev and samples are unequal".

(** [__init__(self, means, std_dev, samples, walks)]; [now] is [int(time())]. *)
Definition __init__ (means std_dev : list F) (samples : list Z) (walks : Z)
    (now : Z) : result MonteCarlo :=
  if negb (length means =? length std_dev)
     || negb (length means =? length samples)
  then Raise (ValueError unequal_categories)
  else Ok {| means := means;
             std_devs := std_dev;
             samples := samples;
             walks := walks;
             categories := length means;
             _rng := seed now |}.

(** [zip(self.means, self.std_devs, self.samples)] *)
Definition zip3 (a b : list F) (c : list Z) : list (F * F * Z) :=
  combine (combine a b) c.

(** The inner loop of [gen_dists]: one draw per category, appended to
    [dists] in order. *)
Fixpoint draw_dists (g : G) (params : list (F * F * Z))
    : result (walk * G) :=
  match params with
  | [] => Ok ([], g)
  | (mean, std_dev, n) :: params' =>
      '(dist, g1) <- normal g mean std_dev n ;;
      '(dists, g2) <- draw_dists g1 params' ;;
      Ok (dist :: dists, g2)
  end.

(** The outer loop, [for _ in range(self.walks)]: the walks yielded, in
    order, and the state of the random source after the last one.  An
    exception raised while a walk is drawn reaches the consumer of the
    generator when it asks for that walk. *)
Fixpoint gen_walks (n : nat) (g : G) (params : list (F * F * Z))
    : result (list walk * G) :=
  match n with
  | O => Ok ([], g)
  | S n' =>
      '(dists, g1) <- draw_dists g params ;;
      '(rest, g2) <- gen_walks n' g1 params ;;
      Ok (dists :: rest, g2)
  end.

Definition gen_dists (self : MonteCarlo) : result (list walk * G) :=
  gen_walks (Z.to_nat (walks self)) (_rng self)
            (zip3 (means self) (std_devs self) (samples self)).

(** *** apply_criteria *)

Definition FAIL : nat := 0.
Definition PASS : nat := 1.

(** [all_dists[k]] and [all_dists[k] = v] on the two-element list. *)
Definition getitem (all_dists : list (list F)) (k : nat) : list F :=
  nth k all_dists [].

Fixpoint setitem (all_dists : list (list F)) (k : nat) (v : list F)
    : list (list F) :=
  match all_dists, k with
  | [], _ => []
  | _ :: rest, O => v :: rest
  | a :: rest, S k' => a :: setitem rest k' v
  end.

Definition enumerate {A : Type} (l : list A) : list (nat * A) :=
  combine (seq 0 (length l)) l.

(** [(idx == control_idx) + FAIL] *)
Definition bucket (idx : nat) (control_idx : Z) : nat :=
  Nat.b2n (Z.of_nat idx =? control_idx)%Z + FAIL.

(** The body of the inner loop over [enumerate(dists)]. *)
Definition pool_dist (control_idx : Z) (all_dists : list (list F))
    (p : nat * list F) : list (list F) :=
  let '(idx, dist) := p in
  setitem all_dists (bucket idx control_idx)
          (np_concatenate (getitem all_dists (bucket idx control_idx)) dist).

(** The two loops: [all_dists] after every walk was consumed.  The list
    starts as [[np.array([])] * 2]; its two entries are one object, which
    is harmless since an entry is only ever replaced, never updated in
    place. *)
Definition pool_walks (control_idx : Z) (ws : list walk) : list (list F) :=
  fold_left
    (fun all_dists dists =>
       fold_left (pool_dist control_idx) (enumerate dists) all_dists)
    ws [np_empty; np_empty].

(** The value of a pool: [(values, min, mean, median, max, std)]. *)
Definition PoolStats : Type := (list F * F * F * F * F * F)%type.

Definition default_control_idx : Z := (-1)%Z.
Definition default_criteria : F := of_nat 0.
Definition default_test_cri : string := "__lt__".

(** The body of [apply_criteria] once the generator is exhausted. *)
Definition score (control_idx : Z) (criteria : F) (test_cri : string)
    (ws : list walk) : PoolStats * PoolStats :=
  let all_dists := pool_walks control_idx ws in
  let false_neg_idx := np_where (np_less (getitem all_dists FAIL) criteria) in
  let false_pos_idx :=
    np_where (np_greater (getitem all_dists PASS) criteria) in
  let false_neg :=
    if negb (length false_neg_idx =? 0) then
      let false_neg := np_sort (np_take (getitem all_dists FAIL) false_neg_idx) in
      (false_neg, np_min false_neg, np_mean false_neg, np_median false_neg,
       np_max false_neg, np_std false_neg)
    else
      let false_neg := np_empty in
      (false_neg, nan, nan, nan, nan, nan) in
  let false_pos :=
    if negb (length false_pos_idx =? 0) then
      let false_pos := np_sort (np_take (getitem all_dists PASS) false_pos_idx) in
      (false_pos, np_min false_pos, np_mean false_pos, np_median false_pos,
       np_max false_pos, np_std false_pos)
    else
      let false_pos := np_empty in
      (false_pos, nan, nan, nan, nan, nan) in
  (false_neg, false_pos).

(** [apply_criteria] over the walks of a given generator: the method calls
    [self.gen_dists()], which the tests replace by a fixed list of walks. *)
Definition apply_criteria_from (gen : result (list walk * G))
    (control_idx : Z) (criteria : F) (test_cri : string)
    : result (PoolStats * PoolStats * G) :=
  '(ws, g) <- gen ;;
  Ok (score control_idx criteria test_cri ws, g).

Definition apply_criteria (self : MonteCarlo)
    (control_idx : Z) (criteria : F) (test_cri : string)
    : result (PoolStats * PoolStats * G) :=
  apply_criteria_from (gen_dists self) control_idx criteria test_cri.

(** The same body with the exceptions of the numpy calls that can raise,
    [np.min] and [np.max]. *)
Definition score_raising (control_idx : Z) (criteria : F) (test_cri : string)
    (ws : list walk) : result (PoolStats * PoolStats) :=
  let all_dists := pool_walks control_idx ws in
  let false_neg_idx := np_where (np_less (getitem all_dists FAIL) criteria) in
  let false_pos_idx :=
    np_where (np_greater (getitem all_dists PASS) criteria) in
  false_neg <-
    (if negb (length false_neg_idx =? 0) then
       let false_neg :=
         np_sort (np_take (getitem all_dists FAIL) false_neg_idx) in
       lo <- np_min_raising false_neg ;;
       hi <- np_max_raising false_neg ;;
       Ok (false_neg, lo, np_mean false_neg, np_median false_neg, hi,
           np_std false_neg)
     else
       let false_neg := np_empty in
       Ok (false_neg, nan, nan, nan, nan, nan)) ;;
  false_pos <-
    (if negb (length false_pos_idx =? 0) then
       let false_pos :=
         np_sort (np_take (getitem all_dists PASS) false_pos_idx) in
       lo <- np_min_raising false_pos ;;
       hi <- np_max_raising false_pos ;;
       Ok (false_pos, lo, np_mean false_pos, np_median false_pos, hi,
           np_std false_pos)
     else
       let false_pos := np_empty in
       Ok (false_pos, nan, nan, nan, nan, nan)) ;;
  Ok (false_neg, false_pos).

Definition apply_criteria_raising (self : MonteCarlo)
    (control_idx : Z) (criteria : F) (test_cri : string)
    : result (PoolStats * PoolStats * G) :=
  '(ws, g) <- gen_dists self ;;
  r <- score_raising control_idx criteria test_cri ws ;;
  Ok (r, g).

End MonteCarlo.

Arguments MonteCarlo F G : clear implicits.
Arguments walk F : clear implicits.
Arguments PoolStats F : clear implicits.

(** The components of a pool's value. *)
Section PoolStats.

Context {F : Type}.

Definition values (p : PoolStats F) : list F :=
  let '(v, _, _, _, _, _) := p in v.
Definition minimum (p : PoolStats F) : F :=
  let '(_, x, _, _, _, _) := p in x.
Definition mean (p : PoolStats F) : F :=
  let '(_, _, x, _, _, _) := p in x.
Definition median (p : PoolStats F) : F :=
  let '(_, _, _, x, _, _) := p in x.
Definition maximum (p : PoolStats F) : F :=
  let '(_, _, _, _, x, _) := p in x.
Definition std (p : PoolStats F) : F :=
  let '(_, _, _, _, _, x) := p in x.

End PoolStats.

(** ** Vocabulary of the specification *)

Section Vocabulary.

Context {F : Type} `{Float F}.

(** The value of an empty pool: no values, five times not-a-number. *)
Definition nan_stats : PoolStats F := (np_empty, nan, nan, nan, nan, nan).

(** The samples of the categories of one walk that are ([true]) or are
    not ([false]) the control, in the order of the walk. *)
Definition select (control_idx : Z) (is_control : bool) (p : nat * list F)
    : list F :=
  if Bool.eqb (Z.of_nat (fst p) =? control_idx)%Z is_control
  then snd p else [].

(** The two pools over all walks. *)
Definition non_control_pool (control_idx : Z) (ws : list (walk F)) : list F :=
  flat_map (fun w => flat_map (select control_idx false) (enumerate w)) ws.
Definition control_pool (control_idx : Z) (ws : list (walk F)) : list F :=
  flat_map (fun w => flat_map (select control_idx true) (enumerate w)) ws.

(** The misclassified samples of each pool, before they are sorted. *)
Definition false_negatives (control_idx : Z) (criteria : F)
    (ws : list (walk F)) : list F :=
  filter (fun x => fltb x criteria) (non_control_pool control_idx ws).
Definition false_positives (control_idx : Z) (criteria : F)
    (ws : list (walk F)) : list F :=
  filter (fun x => fgtb x criteria) (control_pool control_idx ws).

(** What [apply_criteria] reports of the misclassified samples [l] of a
    pool. *)
Definition describe (l : list F) : PoolStats F :=
  match l with
  | [] => nan_stats
  | _ :: _ =>
      let v := np_sort l in
      (v, np_min v, np_mean v, np_median v, np_max v, np_std v)
  end.

(** All samples of category [k], over all walks. *)
Definition category_samples (k : nat) (ws : list (walk F)) : list F :=
  flat_map (fun w => nth k w []) ws.

(** The order [np.sort] sorts by is a total order on the elements. *)
Record SortOrder : Prop := {
  sort_lt_asym : forall x y, sort_lt x y = true -> sort_lt y x = false;
  sort_lt_trans : forall x y z,
    sort_lt x y = true -> sort_lt y z = true -> sort_lt x z = true;
  sort_lt_total : forall x y,
    sort_lt x y = false -> sort_lt y x = false -> x = y
}.

(** The same, but for the negative zero: [0.0] and [-0.0] are equal as
    numbers and two values. *)
Record SortOrderApartZero : Prop := {
  apart_asym : forall x y, sort_lt x y = true -> sort_lt y x = false;
  apart_trans : forall x y z,
    sort_lt x y = true -> sort_lt y z = true -> sort_lt x z = true;
  apart_total : forall x y,
    negative_zero x = false -> negative_zero y = false ->
    sort_lt x y = false -> sort_lt y x = false -> x = y
}.

End Vocabulary.

Arguments SortOrder F {_}.
Arguments SortOrderApartZero F {_}.

(** ** The real numbers with a not-a-number value *)

(** The idealisation of binary64 in which the specification speaks of
    samples as real numbers: no rounding, no infinities (a division by
    zero and the root of a negative number are not-a-number), and
    not-a-number compares false with everything. *)
Module Real.

Inductive real : Type :=
| NaN
| Fin (r : R).

Definition lift2 (f : R -> R -> R) (x y : real) : real :=
  match x, y with
  | Fin a, Fin b => Fin (f a b)
  | _, _ => NaN
  end.

Definition div (x y : real) : real :=
  match x, y with
  | Fin a, Fin b => if Req_dec_T b 0 then NaN else Fin (a / b)
  | _, _ => NaN
  end.

Definition sqrt (x : real) : real :=
  match x with
  | Fin a => if Rlt_dec a 0 then NaN else Fin (R_sqrt.sqrt a)
  | NaN => NaN
  end.

Definition eqb (x y : real) : bool :=
  match x, y with
  | Fin a, Fin b => if Req_dec_T a b then true else false
  | _, _ => false
  end.

Definition ltb (x y : real) : bool :=
  match x, y with
  | Fin a, Fin b => if Rlt_dec a b then true else false
  | _, _ => false
  end.

Definition leb (x y : real) : bool :=
  match x, y with
  | Fin a, Fin b => if Rle_dec a b then true else false
  | _, _ => false
  end.

#[export] Instance real_float : Float real := {|
  nan := NaN;
  of_nat := fun n => Fin (INR n);
  fadd := lift2 Rplus;
  fsub := lift2 Rminus;
  fmul := lift2 Rmult;
  fdiv := div;
  fsqrt := sqrt;
  feqb := eqb;
  fltb := ltb;
  fleb := leb
|}.

End Real.

(** ** A deterministic random source *)

(** A stand-in for numpy's generator in closed examples: the state counts
    the draws made, and draw number [k] is [loc + scale * z] with [z]
    cycling through -1, 0 and 1.  It refuses what numpy's [normal]
    refuses, with [ValueError]: a scale whose sign bit is set (a negative
    one, or -0.0; nan is accepted), a negative size, and a size above
    [max_size]. *)
Module Counter.

Section Counter.

Context {F : Type} `{Float F}.

Definition draw (loc scale : F) (k : nat) : F :=
  fadd loc (fmul scale (fsub (of_nat (k mod 3)) (of_nat 1))).

Definition counter_normal (g : nat) (loc scale : F) (size : Z)
    : result (list F * nat) :=
  if signbit scale then Raise (ValueError "scale < 0")
  else if (size <? 0)%Z
       then Raise (ValueError "negative dimensions are not allowed")
       else if (max_size <? size)%Z
            then Raise (ValueError "Maximum allowed dimension exceeded")
            else Ok (map (fun i => draw loc scale (g + i))
                         (seq 0 (Z.to_nat size)),
                     g + Z.to_nat size).

#[export] Instance counter : RandomState F nat := {|
  seed := fun s => Z.to_nat s;
  normal := counter_normal
|}.

End Counter.

End Counter.

(** ** The arrays of the test suite *)

Module Scenario.

Import Binary64.
Import Counter.
Local Open Scope float_scope.

(** [test_apply_test_criteria]: the one walk its generator yields. *)
Definition walk_false_results : walk float :=
  [[12; 11; 10; 9; 8]; [6; 5; 4; 3; 2]; [6; 5; 4; 3; 2]].

(** [test_apply_test_criteria_pass]: the one walk its generator yields. *)
Definition walk_pass : walk float :=
  [[12; 11; 10; 9; 8]; [10; 9; 8; 7; 6]; [5; 4; 3; 2; 1]].

(** An instance as [__init__] builds it, over the stand-in source: two
    categories, two walks. *)
Definition simulator : MonteCarlo float nat :=
  {| means := [0; 10]; std_devs := [1; 2]; samples := [2; 3]%Z;
     walks := 2; categories := 2; _rng := 0%nat |}.

(** The walks [gen_dists] yields on it. *)
Definition simulator_walks : list (walk float) :=
  [[[-1; 0]; [12; 8; 10]]; [[1; -1]; [10; 12; 8]]].

(** Degenerate parameters: standard deviations 0, a category without
    samples. *)
Definition degenerate : MonteCarlo float nat :=
  {| means := [0; 10]; std_devs := [0; 0]; samples := [0; 1]%Z;
     walks := 3; categories := 2; _rng := 0%nat |}.

(** Two walks of two categories, and the same walks in the other
    order. *)
Definition two_walks : list (walk float) :=
  [[[1; 3]; [5]]; [[2]; [4]]].
Definition two_walks_reversed : list (walk float) :=
  [[[2]; [4]]; [[1; 3]; [5]]].

(** Two walks of one sample, the two zeros, in both orders. *)
Definition zero_walks : list (walk float) := [[[0]]; [[-0]]].
Definition zero_walks_reversed : list (walk float) := [[[-0]]; [[0]]].

(** A standard deviation -0.0, which is not below zero. *)
Definition negative_zero_std : MonteCarlo float nat :=
  {| means := [0]; std_devs := [-0]; samples := [1]%Z;
     walks := 1; categories := 1; _rng := 0%nat |}.

(** A sample count of [2**63]. *)
Definition oversized_count : MonteCarlo float nat :=
  {| means := [0]; std_devs := [1]; samples := [9223372036854775808]%Z;
     walks := 1; categories := 1; _rng := 0%nat |}.

End Scenario.

(** The arrays of the test suite over the reals. *)
Module RealScenario.

Import Real.
Local Open Scope R_scope.

(** The walk of [test_apply_test_criteria], over the reals. *)
Definition real_walk_false_results : walk real :=
  [[Fin 12; Fin 11; Fin 10; Fin 9; Fin 8];
   [Fin 6; Fin 5; Fin 4; Fin 3; Fin 2];
   [Fin 6; Fin 5; Fin 4; Fin 3; Fin 2]].

End RealScenario.

(** ** Consecutive runs and refused sizes *)

Section Runs.

Context {F G : Type} `{Float F} `{RandomState F G}.

(** The instance as a run leaves it for the next one: the parameters of
    [self], the random source in the state [g] the run reached (numpy
    updates it in place), and [walks] as the caller sets it. *)
Definition continue_with (self : MonteCarlo F G) (walks' : Z) (g : G)
    : MonteCarlo F G :=
  {| means := means self; std_devs := std_devs self;
     samples := samples self; walks := walks';
     categories := categories self; _rng := g |}.

(** What numpy documents of [normal] for a negative size: it raises
    [ValueError]. *)
Definition normal_refuses_negative_size : Prop :=
  forall (g : G) (loc scale : F) (size : Z),
    (size < 0)%Z -> exists msg, normal g loc scale size = Raise (ValueError msg).

End Runs.

Arguments normal_refuses_negative_size F G {_}.

(** Instances for the edge cases of generation. *)
Module EdgeScenario.

Import Binary64.
Import Counter.
Local Open Scope float_scope.

(** A sample count below zero, which [__init__] accepts. *)
Definition negative_count : MonteCarlo float nat :=
  {| means := [0; 10]; std_devs := [1; 2]; samples := [2; -3]%Z;
     walks := 1; categories := 2; _rng := 0%nat |}.

(** Five walks, to be drawn in one run or in a run of two and a run of
    three. *)
Definition five_walks : MonteCarlo float nat :=
  {| means := [0; 10]; std_devs := [1; 2]; samples := [2; 3]%Z;
     walks := 5; categories := 2; _rng := 0%nat |}.

End EdgeScenario.

(** * Properties *)

(** ** Lists *)

Section ListFacts.

Context {A : Type}.

Lemma flat_map_app_perm {B : Type} (f g : B -> list A) (l : list B) :
  Permutation (flat_map (fun x => f x ++ g x) l)
              (flat_map f l ++ flat_map g l).
Proof.
  induction l as [|x l IH]; simpl.
  - constructor.
  - rewrite IH, <- !app_assoc.
    apply Permutation_app_head.
    rewrite !app_assoc.
    apply Permutation_app_tail, Permutation_app_comm.
Qed.

Lemma flat_map_perm_pointwise {B : Type} (f g : B -> list A) (l : list B) :
  (forall x, In x l -> Permutation (f x) (g x)) ->
  Permutation (flat_map f l) (flat_map g l).
Proof.
  induction l as [|x l IH]; simpl; intros Hfg.
  - constructor.
  - apply Permutation_app; auto.
Qed.

Lemma flat_map_in_ext {B : Type} (f g : B -> list A) (l : list B) :
  (forall x, In x l -> f x = g x) -> flat_map f l = flat_map g l.
Proof.
  induction l as [|x l IH]; simpl; intros Hfg.
  - reflexivity.
  - rewrite (Hfg x), IH; auto.
Qed.

Lemma filter_perm (p : A -> bool) (l l' : list A) :
  Permutation l l' -> Permutation (filter p l) (filter p l').
Proof.
  induction 1 as [|x l l' _ IH|x y l|l l' l'' _ IH1 _ IH2]; simpl.
  - constructor.
  - destruct (p x); auto.
  - destruct (p x), (p y); auto using Permutation_refl, perm_swap.
  - now transitivity (filter p l').
Qed.

End ListFacts.

(** ** The numpy routines *)

Section NumpyFacts.

Context {F : Type} `{Float F}.

Lemma where_from_take (p : F -> bool) (pre a : list F) :
  np_take (pre ++ a) (where_from (length pre) (map p a)) = filter p a.
Proof.
  revert pre. induction a as [|x a IH]; intros pre; simpl.
  - reflexivity.
  - assert (Hnext : np_take (pre ++ x :: a)
                      (where_from (S (length pre)) (map p a)) = filter p a).
    { specialize (IH (pre ++ [x])).
      rewrite <- app_assoc, length_app, Nat.add_1_r in IH. exact IH. }
    destruct (p x); simpl.
    + rewrite nth_middle. f_equal. exact Hnext.
    + exact Hnext.
Qed.

(** Selecting by [np.where] of a mask and indexing is filtering. *)
Lemma np_take_where (p : F -> bool) (a : list F) :
  np_take a (np_where (map p a)) = filter p a.
Proof. exact (where_from_take p [] a). Qed.

Lemma where_from_length (i : nat) (mask : list bool) :
  length (where_from i mask) = length (filter (fun b => b) mask).
Proof.
  revert i. induction mask as [|b mask IH]; intros i; simpl.
  - reflexivity.
  - destruct b; simpl; now rewrite IH.
Qed.

Lemma np_where_length (p : F -> bool) (a : list F) :
  length (np_where (map p a)) = length (filter p a).
Proof.
  unfold np_where. rewrite where_from_length.
  induction a as [|x a IH]; simpl.
  - reflexivity.
  - destruct (p x); simpl; now rewrite IH.
Qed.

Lemma insert_perm (x : F) (l : list F) : Permutation (insert x l) (x :: l).
Proof.
  induction l as [|y l IH]; simpl.
  - apply Permutation_refl.
  - destruct (sort_lt y x).
    + rewrite IH. apply perm_swap.
    + apply Permutation_refl.
Qed.

(** [np.sort] returns the elements it was given. *)
Lemma np_sort_perm (a : list F) : Permutation (np_sort a) a.
Proof.
  induction a as [|x a IH]; simpl.
  - constructor.
  - rewrite insert_perm. now constructor.
Qed.

Lemma np_sort_nil_inv (a : list F) : np_sort a = [] -> a = [].
Proof.
  intros E. apply Permutation_nil. rewrite <- E. apply np_sort_perm.
Qed.

(** In a total order the place of an element does not depend on the
    order in which the others were inserted. *)
Lemma insert_comm (O : SortOrder F) (x y : F) (l : list F) :
  insert x (insert y l) = insert y (insert x l).
Proof.
  destruct O as [asym trans total].
  assert (between : forall a b c,
             sort_lt c a = false -> sort_lt c b = true -> sort_lt a b = true).
  { intros a b c Hca Hcb.
    destruct (sort_lt a b) eqn:Eab; [reflexivity|].
    destruct (sort_lt b a) eqn:Eba.
    - rewrite (trans _ _ _ Hcb Eba) in Hca. discriminate.
    - rewrite (total _ _ Eab Eba), Hcb in Hca. discriminate. }
  induction l as [|z l IH]; cbn [insert].
  - destruct (sort_lt y x) eqn:Eyx, (sort_lt x y) eqn:Exy; try reflexivity.
    + rewrite (asym _ _ Eyx) in Exy. discriminate.
    + now rewrite (total _ _ Exy Eyx).
  - destruct (sort_lt z y) eqn:Ezy, (sort_lt z x) eqn:Ezx;
      cbn [insert]; rewrite ?Ezy, ?Ezx.
    + now rewrite IH.
    + now rewrite (between _ _ _ Ezx Ezy), ?Ezy.
    + now rewrite (between _ _ _ Ezy Ezx), ?Ezx.
    + destruct (sort_lt y x) eqn:Eyx, (sort_lt x y) eqn:Exy;
        rewrite ?Ezy, ?Ezx; try reflexivity.
      * rewrite (asym _ _ Eyx) in Exy. discriminate.
      * now rewrite (total _ _ Exy Eyx).
Qed.

(** Hence [np.sort] is a function of the multiset of its argument. *)
Lemma np_sort_unique (O : SortOrder F) (a b : list F) :
  Permutation a b -> np_sort a = np_sort b.
Proof.
  induction 1 as [|x a b _ IH|x y a|a b c _ IH1 _ IH2]; simpl.
  - reflexivity.
  - now rewrite IH.
  - apply insert_comm, O.
  - now transitivity (np_sort b).
Qed.

End NumpyFacts.

(** ** Pooling *)

Section Pooling.

Context {F : Type} `{Float F}.

Lemma fold_pool_dist (c : Z) (l : list (nat * list F)) (a b : list F) :
  fold_left (pool_dist c) l [a; b]
  = [a ++ flat_map (select c false) l; b ++ flat_map (select c true) l].
Proof.
  revert a b. induction l as [|[idx dist] l IH]; intros a b; simpl.
  - now rewrite !app_nil_r.
  - unfold bucket, select, getitem, np_concatenate; simpl.
    destruct (Z.of_nat idx =? c)%Z; simpl; rewrite IH;
      now rewrite <- ?app_assoc.
Qed.

Lemma fold_pool_walks (c : Z) (ws : list (walk F)) (a b : list F) :
  fold_left
    (fun all_dists dists => fold_left (pool_dist c) (enumerate dists) all_dists)
    ws [a; b]
  = [a ++ non_control_pool c ws; b ++ control_pool c ws].
Proof.
  revert a b. induction ws as [|w ws IH]; intros a b; simpl.
  - now rewrite !app_nil_r.
  - rewrite fold_pool_dist, IH. now rewrite <- !app_assoc.
Qed.

(** After the loops, [all_dists[FAIL]] holds the samples of every category
    but the control and [all_dists[PASS]] those of the control. *)
Lemma pool_walks_spec (c : Z) (ws : list (walk F)) :
  pool_walks c ws = [non_control_pool c ws; control_pool c ws].
Proof. unfold pool_walks. now rewrite fold_pool_walks. Qed.

Lemma describe_take (p : F -> bool) (a : list F) :
  (if negb (length (np_where (map p a)) =? 0)
   then let v := np_sort (np_take a (np_where (map p a))) in
        (v, np_min v, np_mean v, np_median v, np_max v, np_std v)
   else (np_empty, nan, nan, nan, nan, nan))
  = describe (filter p a).
Proof.
  rewrite np_where_length, np_take_where.
  now destruct (filter p a).
Qed.

(** [apply_criteria] describes the misclassified samples of the two
    pools. *)
Lemma score_spec (c : Z) (criteria : F) (test_cri : string)
    (ws : list (walk F)) :
  score c criteria test_cri ws
  = (describe (false_negatives c criteria ws),
     describe (false_positives c criteria ws)).
Proof.
  unfold score, false_negatives, false_positives.
  rewrite pool_walks_spec. unfold getitem, FAIL, PASS, np_less, np_greater.
  cbn [nth]. cbv zeta.
  now rewrite !describe_take.
Qed.

Lemma describe_take_raising (p : F -> bool) (a : list F) :
  (if negb (length (np_where (map p a)) =? 0)
   then let v := np_sort (np_take a (np_where (map p a))) in
        lo <- np_min_raising v ;;
        hi <- np_max_raising v ;;
        Ok (v, lo, np_mean v, np_median v, hi, np_std v)
   else Ok (np_empty, nan, nan, nan, nan, nan))
  = Ok (describe (filter p a)).
Proof.
  rewrite np_where_length, np_take_where.
  destruct (filter p a) as [|x l]; [reflexivity|].
  unfold describe. cbv zeta. cbn [length Nat.eqb negb].
  destruct (np_sort (x :: l)) as [|y v] eqn:Es; [|reflexivity].
  apply np_sort_nil_inv in Es. discriminate.
Qed.

(** The two size guards keep [np.min] and [np.max] away from an empty
    array: [apply_criteria] never raises once the walks are there, and
    its value is the one of the body without exceptions. *)
Lemma score_raising_ok (c : Z) (criteria : F) (test_cri : string)
    (ws : list (walk F)) :
  score_raising c criteria test_cri ws = Ok (score c criteria test_cri ws).
Proof.
  rewrite score_spec. unfold score_raising, false_negatives, false_positives.
  rewrite pool_walks_spec. unfold getitem, FAIL, PASS, np_less, np_greater.
  cbn [nth]. cbv zeta.
  now rewrite !describe_take_raising.
Qed.

Lemma select_false_unmatched (c : Z) (n : nat) (w : walk F) :
  (forall i, (n <= i < n + length w)%nat -> Z.of_nat i <> c) ->
  flat_map (select c false) (combine (seq n (length w)) w) = concat w.
Proof.
  revert n. induction w as [|d w IH]; intros n Hc; simpl.
  - reflexivity.
  - unfold select at 1; simpl.
    destruct (Z.eqb_spec (Z.of_nat n) c) as [E|_].
    + exfalso. apply (Hc n); [simpl; lia|exact E].
    + simpl. f_equal. apply IH. intros i Hi. apply Hc. simpl. lia.
Qed.

Lemma select_true_unmatched (c : Z) (n : nat) (w : walk F) :
  (forall i, (n <= i < n + length w)%nat -> Z.of_nat i <> c) ->
  flat_map (select c true) (combine (seq n (length w)) w) = [].
Proof.
  revert n. induction w as [|d w IH]; intros n Hc; simpl.
  - reflexivity.
  - unfold select at 1; simpl.
    destruct (Z.eqb_spec (Z.of_nat n) c) as [E|_].
    + exfalso. apply (Hc n); [simpl; lia|exact E].
    + simpl. apply IH. intros i Hi. apply Hc. simpl. lia.
Qed.

(** A control index that is the position of no category of any walk
    leaves the control pool empty. *)
Lemma pools_unmatched (c : Z) (n : nat) (ws : list (walk F)) :
  Forall (fun w => length w <= n)%nat ws ->
  (c < 0 \/ Z.of_nat n <= c)%Z ->
  non_control_pool c ws = concat (concat ws) /\ control_pool c ws = [].
Proof.
  intros Hws Hc. unfold non_control_pool, control_pool, enumerate.
  induction Hws as [|w ws Hw _ [IH1 IH2]]; simpl.
  - now split.
  - rewrite IH1, IH2, concat_app.
    rewrite select_false_unmatched, select_true_unmatched by (intros; lia).
    now split.
Qed.

End Pooling.

(** ** Pools as multisets of the categories' samples *)

Section Categories.

Context {F : Type} `{Float F}.

Lemma flat_map_nil {B : Type} (f : B -> list F) (l : list B) :
  (forall x, In x l -> f x = []) -> flat_map f l = [].
Proof.
  induction l as [|x l IH]; simpl; intros Hf.
  - reflexivity.
  - rewrite (Hf x), IH; auto.
Qed.

Lemma flat_map_swap {B C : Type} (f : B -> C -> list F)
    (l1 : list B) (l2 : list C) :
  Permutation (flat_map (fun x => flat_map (f x) l2) l1)
              (flat_map (fun y => flat_map (fun x => f x y) l1) l2).
Proof.
  induction l1 as [|x l1 IH]; simpl.
  - rewrite flat_map_nil; auto.
  - rewrite IH. symmetry.
    apply (flat_map_app_perm (f x) (fun y => flat_map (fun x0 => f x0 y) l1)).
Qed.

Lemma enumerate_from (m : nat) (w : walk F) :
  combine (seq m (length w)) w
  = map (fun k => (k, nth (k - m) w [])) (seq m (length w)).
Proof.
  revert m. induction w as [|d w IH]; intros m; simpl.
  - reflexivity.
  - rewrite Nat.sub_diag. f_equal. rewrite IH.
    apply map_ext_in. intros k Hk. apply in_seq in Hk.
    replace (k - m)%nat with (S (k - S m)) by lia. reflexivity.
Qed.

Lemma enumerate_nth (w : walk F) :
  enumerate w = map (fun k => (k, nth k w [])) (seq 0 (length w)).
Proof.
  unfold enumerate. rewrite enumerate_from.
  apply map_ext. intros k. now rewrite Nat.sub_0_r.
Qed.

(** The part of one walk that goes to a pool, category by category. *)
Lemma select_walk (c : Z) (b : bool) (n : nat) (w : walk F) :
  (length w <= n)%nat ->
  flat_map (select c b) (enumerate w)
  = flat_map (fun k => select c b (k, nth k w [])) (seq 0 n).
Proof.
  intros Hn. rewrite enumerate_nth, flat_map_concat_map, map_map,
    <- flat_map_concat_map.
  replace n with (length w + (n - length w))%nat at 1 by lia.
  rewrite seq_app, flat_map_app, (flat_map_nil _ (seq _ (n - length w))).
  - now rewrite app_nil_r.
  - intros k Hk. apply in_seq in Hk. unfold select; simpl.
    rewrite nth_overflow by lia. now destruct (Bool.eqb _ _).
Qed.

Lemma select_category (c : Z) (b : bool) (k : nat) (ws : list (walk F)) :
  flat_map (fun w => select c b (k, nth k w [])) ws
  = if Bool.eqb (Z.of_nat k =? c)%Z b then category_samples k ws else [].
Proof.
  unfold select, category_samples; simpl.
  destruct (Bool.eqb _ _).
  - reflexivity.
  - now apply flat_map_nil.
Qed.

Lemma pool_by_category (c : Z) (b : bool) (n : nat) (ws : list (walk F)) :
  Forall (fun w => length w <= n)%nat ws ->
  Permutation
    (flat_map (fun w => flat_map (select c b) (enumerate w)) ws)
    (flat_map (fun k => if Bool.eqb (Z.of_nat k =? c)%Z b
                        then category_samples k ws else [])
              (seq 0 n)).
Proof.
  intros Hws.
  rewrite (flat_map_in_ext _
             (fun w => flat_map (fun k => select c b (k, nth k w [])) (seq 0 n))).
  - rewrite flat_map_swap.
    apply flat_map_perm_pointwise. intros k _.
    now rewrite select_category.
  - intros w Hw. apply select_walk.
    rewrite Forall_forall in Hws. now apply Hws.
Qed.

(** Two sequences of walks with the same samples in every category, as
    multisets, fill the pools with the same multisets. *)
Lemma pool_perm (c : Z) (b : bool) (ws1 ws2 : list (walk F)) :
  (forall k, Permutation (category_samples k ws1) (category_samples k ws2)) ->
  Permutation
    (flat_map (fun w => flat_map (select c b) (enumerate w)) ws1)
    (flat_map (fun w => flat_map (select c b) (enumerate w)) ws2).
Proof.
  intros Hk.
  set (n := list_max (map (@length _) ws1 ++ map (@length _) ws2)).
  assert (Hn : Forall (fun k => k <= n)%nat
                 (map (@length _) ws1 ++ map (@length _) ws2))
    by now apply list_max_le.
  apply Forall_app in Hn. destruct Hn as [H1 H2].
  rewrite Forall_map in H1, H2.
  rewrite (pool_by_category c b H1), (pool_by_category c b H2).
  apply flat_map_perm_pointwise. intros k _.
  destruct (Bool.eqb _ _); auto.
Qed.

(** The samples of a category do not depend on the order of the walks,
    as a multiset. *)
Lemma category_samples_perm (k : nat) (ws1 ws2 : list (walk F)) :
  Permutation ws1 ws2 ->
  Permutation (category_samples k ws1) (category_samples k ws2).
Proof. intros P. unfold category_samples. now rewrite P. Qed.

(** [apply_criteria] is a function of the multisets of the categories'
    samples, in an arithmetic whose sort order is total. *)
Lemma score_by_multiset (O : SortOrder F) (c : Z) (criteria : F)
    (test_cri : string) (ws1 ws2 : list (walk F)) :
  (forall k, Permutation (category_samples k ws1) (category_samples k ws2)) ->
  score c criteria test_cri ws1 = score c criteria test_cri ws2.
Proof.
  intros Hk. rewrite !score_spec.
  assert (D : forall l1 l2 : list F,
             Permutation l1 l2 -> describe l1 = describe l2).
  { intros l1 l2 P. unfold describe.
    destruct l1 as [|x1 l1], l2 as [|x2 l2].
    - reflexivity.
    - apply Permutation_nil in P. discriminate.
    - symmetry in P. apply Permutation_nil in P. discriminate.
    - now rewrite (np_sort_unique O P). }
  unfold false_negatives, false_positives, non_control_pool, control_pool.
  f_equal; apply D, filter_perm, pool_perm, Hk.
Qed.

End Categories.

(** ** The order of the reals *)

Section RealOrder.

Import Real.

Lemma real_isnan (x : real) :
  isnan x = match x with NaN => true | Fin _ => false end.
Proof.
  destruct x as [|a]; unfold isnan; simpl.
  - reflexivity.
  - now destruct (Req_dec_T a a).
Qed.

Lemma real_sort_lt (x y : real) :
  sort_lt x y = match x, y with
                | Fin a, Fin b => if Rlt_dec a b then true else false
                | Fin _, NaN => true
                | NaN, _ => false
                end.
Proof.
  unfold sort_lt. rewrite !real_isnan.
  destruct x as [|a], y as [|b]; simpl; try reflexivity.
  now rewrite orb_false_r.
Qed.

(** [np.sort] orders the reals as usual, with not-a-number last. *)
Lemma real_sort_order : SortOrder real.
Proof.
  split.
  - intros x y. rewrite !real_sort_lt.
    destruct x as [|a], y as [|b]; try easy.
    destruct (Rlt_dec a b), (Rlt_dec b a); try easy. lra.
  - intros x y z. rewrite !real_sort_lt.
    destruct x as [|a], y as [|b], z as [|c]; try easy.
    destruct (Rlt_dec a b), (Rlt_dec b c), (Rlt_dec a c); try easy. lra.
  - intros x y. rewrite !real_sort_lt.
    destruct x as [|a], y as [|b]; try easy.
    destruct (Rlt_dec a b), (Rlt_dec b a); try easy.
    intros _ _. f_equal. lra.
Qed.

End RealOrder.

(** ** Construction and generation *)

Section Generation.

Context {F G : Type} `{Float F} `{RandomState F G}.

Lemma init_inv (means std_dev : list F) (samples : list Z) (walks now : Z)
    (self : MonteCarlo F G) :
  __init__ means std_dev samples walks now = Ok self ->
  length means = length std_dev /\ length means = length samples /\
  self = {| means := means; std_devs := std_dev; samples := samples;
            walks := walks; categories := length means; _rng := seed now |}.
Proof.
  unfold __init__.
  destruct (Nat.eqb_spec (length means) (length std_dev)) as [E1|N1];
    destruct (Nat.eqb_spec (length means) (length samples)) as [E2|N2];
    simpl; intros E; inversion E; auto.
Qed.

Lemma zip3_length (a b : list F) (c : list Z) :
  length a = length b -> length a = length c ->
  length (zip3 a b c) = length a.
Proof.
  intros E1 E2. unfold zip3. rewrite !length_combine. lia.
Qed.

Lemma zip3_sizes (a b : list F) (c : list Z) :
  length a = length b -> length a = length c ->
  map snd (zip3 a b c) = c.
Proof.
  intros E1 E2. unfold zip3.
  assert (E : length (combine a b) = length c)
    by (rewrite length_combine; lia).
  clear E1 E2. revert c E.
  induction (combine a b) as [|p l IH]; intros [|z c] E; simpl in *;
    try discriminate; try reflexivity.
  f_equal. apply IH. lia.
Qed.

Lemma zip3_scales (a b : list F) (c : list Z) (P : F -> Prop) :
  Forall P b -> Forall (fun p => P (snd (fst p))) (zip3 a b c).
Proof.
  intros Hb. unfold zip3. apply Forall_forall. intros [[m s] n] Hin. simpl.
  apply in_combine_l, in_combine_r in Hin.
  rewrite Forall_forall in Hb. now apply Hb.
Qed.

Lemma zip3_valid (limit : Z) (a b : list F) (c : list Z) :
  length a = length b -> length a = length c ->
  Forall (fun s => signbit s = false) b ->
  Forall (fun n => (0 <= n <= limit)%Z) c ->
  Forall (fun p => signbit (snd (fst p)) = false) (zip3 a b c) /\
  Forall (fun p => (0 <= snd p <= limit)%Z) (zip3 a b c).
Proof.
  intros E1 E2 Hb Hc. split.
  - exact (@zip3_scales a b c (fun s => signbit s = false) Hb).
  - apply Forall_forall. intros p Hin.
    apply (in_map snd) in Hin. rewrite zip3_sizes in Hin by assumption.
    rewrite Forall_forall in Hc. now apply Hc.
Qed.

(** A walk has one array per parameter triple. *)
Lemma draw_dists_length (params : list (F * F * Z)) (g g' : G)
    (dists : walk F) :
  draw_dists g params = Ok (dists, g') -> length dists = length params.
Proof.
  revert g g' dists.
  induction params as [|[[m s] n] params IH]; intros g g' dists; simpl.
  - intros E. now inversion E.
  - destruct (normal g m s n) as [[dist g1]|e]; simpl; [|discriminate].
    destruct (draw_dists g1 params) as [[rest g2]|e] eqn:E1; simpl;
      [|discriminate].
    intros E. inversion E; subst. simpl. f_equal. eapply IH, E1.
Qed.

Lemma gen_walks_length (params : list (F * F * Z)) (n : nat) (g g' : G)
    (ws : list (walk F)) :
  gen_walks n g params = Ok (ws, g') ->
  length ws = n /\ Forall (fun w => length w = length params) ws.
Proof.
  revert g g' ws. induction n as [|n IH]; intros g g' ws; simpl.
  - intros E. inversion E. now split.
  - destruct (draw_dists g params) as [[dists g1]|e] eqn:E0; simpl;
      [|discriminate].
    destruct (gen_walks n g1 params) as [[rest g2]|e] eqn:E1; simpl;
      [|discriminate].
    intros E. inversion E; subst.
    destruct (IH _ _ _ E1) as [L A]. split.
    + simpl. now f_equal.
    + constructor; [eapply draw_dists_length, E0|exact A].
Qed.

(** With a source that does what numpy does for the arguments it
    accepts, drawing cannot fail for such scales and sizes, and array [i]
    of a walk has the size asked for category [i]. *)
Lemma draw_dists_ok (limit : Z) (N : normal_spec F G limit)
    (params : list (F * F * Z)) (g : G) :
  Forall (fun p => signbit (snd (fst p)) = false) params ->
  Forall (fun p => (0 <= snd p <= limit)%Z) params ->
  exists dists g',
    draw_dists g params = Ok (dists, g') /\
    map (@length F) dists = map (fun p => Z.to_nat (snd p)) params.
Proof.
  revert g. induction params as [|[[m s] n] params IH]; intros g Hs Hn; simpl.
  - now exists [], g.
  - inversion Hs as [|? ? Hs0 Hs']; inversion Hn as [|? ? Hn0 Hn']; subst.
    simpl in Hs0, Hn0.
    destruct (N g m s n Hs0 Hn0) as (dist & g1 & E & L). rewrite E. simpl.
    destruct (IH g1 Hs' Hn') as (dists & g2 & E' & L'). rewrite E'. simpl.
    exists (dist :: dists), g2. split; [reflexivity|]. simpl. now f_equal.
Qed.

Lemma gen_walks_ok (limit : Z) (N : normal_spec F G limit)
    (params : list (F * F * Z)) (n : nat) (g : G) :
  Forall (fun p => signbit (snd (fst p)) = false) params ->
  Forall (fun p => (0 <= snd p <= limit)%Z) params ->
  exists ws g',
    gen_walks n g params = Ok (ws, g') /\
    length ws = n /\
    Forall (fun w => map (@length F) w
                     = map (fun p => Z.to_nat (snd p)) params) ws.
Proof.
  intros Hs Hn. revert g. induction n as [|n IH]; intros g; simpl.
  - exists [], g. auto.
  - destruct (draw_dists_ok N g Hs Hn) as (dists & g1 & E & L). rewrite E.
    simpl.
    destruct (IH g1) as (ws & g2 & E' & L' & A). rewrite E'. simpl.
    exists (dists :: ws), g2. repeat split; simpl; auto.
Qed.

End Generation.

(** The stand-in source does what numpy does for the arguments it
    accepts, in any arithmetic and up to any limit numpy allows. *)
Lemma counter_normal_spec (F : Type) `{Float F} (limit : Z) :
  (limit <= max_size)%Z -> @normal_spec F nat _ Counter.counter limit.
Proof.
  intros Hl g loc scale size Hs Hn. simpl. unfold Counter.counter_normal.
  rewrite Hs.
  destruct (Z.ltb_spec size 0) as [L|_]; [lia|].
  destruct (Z.ltb_spec max_size size) as [L|_]; [lia|].
  eexists _, _. split; [reflexivity|].
  now rewrite length_map, length_seq.
Qed.

(** * The claims of the specification *)

(** ** The scenarios of the test suite, in binary64 *)

Section TestSuite.

Import Binary64.
Import Counter.
Local Open Scope float_scope.

(** C1.  Scenario A ([test_apply_test_criteria]): one walk with the arrays
    [12,11,10,9,8], [6,5,4,3,2], [6,5,4,3,2], control index 2, threshold 4.
    The false negatives are 2 and 3 (minimum 2, mean 2.5, median 2.5,
    maximum 3, standard deviation 0.5), the false positives are 5 and 6
    (minimum 5, mean 5.5, median 5.5, maximum 6, standard deviation 0.5). *)
Theorem scenario_false_results (G : Type) (g : G) :
  apply_criteria_from (Ok ([Scenario.walk_false_results], g))
                      2%Z 4 default_test_cri
  = Ok (([2; 3], 2, 2.5, 2.5, 3, 0.5), ([5; 6], 5, 5.5, 5.5, 6, 0.5), g).
Proof. vm_compute. reflexivity. Qed.

(** C3, as stated: with the arrays of scenario A and threshold 5 the pools
    are not empty; 2, 3 and 4 are below the threshold in the second array
    and 6 is above it in the control. *)
Lemma scenario_pass_as_stated_not_empty :
  exists false_neg false_pos,
    apply_criteria_from (Ok ([Scenario.walk_false_results], tt))
                        2%Z 5 default_test_cri
    = Ok (false_neg, false_pos, tt) /\
    values false_neg = [2; 3; 4] /\ minimum false_neg = 2 /\
    values false_pos = [6] /\ minimum false_pos = 6 /\
    false_neg <> (np_empty, nan, nan, nan, nan, nan) /\
    false_pos <> (np_empty, nan, nan, nan, nan, nan).
Proof.
  eexists _, _. split; [vm_compute; reflexivity|].
  repeat split; try reflexivity; discriminate.
Qed.

(** C3, amended.  Scenario B ([test_apply_test_criteria_pass]) has the
    arrays [12,11,10,9,8], [10,9,8,7,6], [5,4,3,2,1]: with control index 2
    and threshold 5 both pools are empty, and each carries no values and
    not-a-number for the five statistics.  With the arrays of scenario A
    the false negatives are 2, 3, 4 and the one false positive is 6. *)
Theorem scenario_pass (G : Type) (g : G) :
  apply_criteria_from (Ok ([Scenario.walk_pass], g)) 2%Z 5 default_test_cri
  = Ok (([], nan, nan, nan, nan, nan), ([], nan, nan, nan, nan, nan), g)
  /\
  apply_criteria_from (Ok ([Scenario.walk_false_results], g))
                      2%Z 5 default_test_cri
  = Ok (([2; 3; 4], 2, 3, 3, 4, np_std [2; 3; 4]), ([6], 6, 6, 6, 6, 0), g).
Proof. split; vm_compute; reflexivity. Qed.

(** C2, on the code.  [MonteCarlo([0, 10], [0, 0], [1, 1], 1)] draws the
    one walk [[0], [10]] whatever the source (the scales are 0).  With the
    default control index no category is the control: the false-positive
    pool is empty, although 10, in the last category, is above the
    threshold 5; with the index of the last category, [categories - 1],
    it is reported.  The same holds on the walk of scenario A. *)
Theorem default_control_idx_is_no_category :
  (exists (self : MonteCarlo float nat) (g : nat),
     __init__ [0; 10] [0; 0] [1; 1]%Z 1%Z 0%Z = Ok self /\
     apply_criteria self default_control_idx 5 default_test_cri
     = Ok (([0], 0, 0, 0, 0, 0), nan_stats, g) /\
     apply_criteria self (Z.of_nat (categories self) - 1) 5 default_test_cri
     = Ok (([0], 0, 0, 0, 0, 0), ([10], 10, 10, 10, 10, 0), g)) /\
  apply_criteria_from (Ok ([Scenario.walk_false_results], tt))
                      default_control_idx 4 default_test_cri
  = Ok (([2; 2; 3; 3], 2, 2.5, 2.5, 3, 0.5), nan_stats, tt).
Proof.
  split.
  - eexists _, _. split; [reflexivity|]. split; vm_compute; reflexivity.
  - vm_compute. reflexivity.
Qed.

(** binary64 has two zeros, equal as numbers ([0.0 == -0.0]) and distinct
    as values, which [np.sort] leaves in the order it finds them: its
    order is not total there.  It is total on all other values
    ([binary64_sort_order] below). *)
Remark binary64_zeros_not_ordered : ~ SortOrder float.
Proof.
  intros [_ _ total].
  specialize (total 0 (-0) eq_refl eq_refl).
  apply (f_equal (fun x => PrimFloat.ltb (1 / x) 0)) in total.
  vm_compute in total. discriminate.
Qed.

End TestSuite.

(** ** Construction *)

Section Construction.

Context {F G : Type} `{Float F} `{RandomState F G}.

(** C4.  [__init__] raises [ValueError] exactly when the three sequences
    do not all have the same length, and a call that raises returns no
    instance; exactly when they have, it returns the instance that holds
    its arguments, whatever the number of walks. *)
Theorem init_raises_iff_lengths_differ
    (means std_dev : list F) (samples : list Z) (walks now : Z) :
  (__init__ means std_dev samples walks now
   = Raise (ValueError unequal_categories)
   <-> ~ (length means = length std_dev /\ length std_dev = length samples))
  /\
  (__init__ means std_dev samples walks now
   = Ok {| means := means; std_devs := std_dev; samples := samples;
           walks := walks; categories := length means; _rng := seed now |}
   <-> (length means = length std_dev /\ length std_dev = length samples)).
Proof.
  unfold __init__.
  destruct (Nat.eqb_spec (length means) (length std_dev)) as [E1|N1];
    destruct (Nat.eqb_spec (length means) (length samples)) as [E2|N2];
    simpl; repeat split;
    try (intros E; discriminate E);
    try (intros [A B]; exfalso; congruence);
    try (intros A; exfalso; apply A; split; congruence);
    try congruence.
  all: intros _ [A B]; congruence.
Qed.

End Construction.

(** ** Generation *)

Section GenDists.

Context {F G : Type} `{Float F} `{RandomState F G}.

(** C5, amended.  For a configuration that [__init__] accepts, with
    standard deviations that are neither negative nor -0.0 and sample
    counts from 0 to what numpy can allocate, [gen_dists] yields exactly
    [walks] walks (none for 0), and every walk has [categories] arrays,
    array [i] of length [samples[i]]. *)
Theorem gen_dists_shape (limit : Z) (N : normal_spec F G limit)
    (means std_dev : list F) (samples : list Z) (walks now : Z)
    (self : MonteCarlo F G) :
  __init__ means std_dev samples walks now = Ok self ->
  Forall (fun s => signbit s = false) std_dev ->
  Forall (fun n => (0 <= n <= limit)%Z) samples ->
  (0 <= walks)%Z ->
  exists ws g',
    gen_dists self = Ok (ws, g') /\
    Z.of_nat (length ws) = walks /\
    (walks = 0%Z -> ws = []) /\
    Forall (fun w => length w = categories self /\
                     map (fun dist => Z.of_nat (length dist)) w = samples) ws.
Proof.
  intros E Hs Hn Hw.
  destruct (init_inv _ _ _ _ _ E) as (L1 & L2 & ->).
  unfold gen_dists; simpl.
  destruct (zip3_valid means L1 L2 Hs Hn) as [Vs Vn].
  destruct (gen_walks_ok N (Z.to_nat walks) (seed now) Vs Vn)
    as (ws & g' & E' & L & A).
  exists ws, g'. split; [exact E'|]. split; [lia|]. split.
  - intros ->. simpl in L. now destruct ws.
  - apply Forall_forall. intros w Hin.
    rewrite Forall_forall in A. specialize (A w Hin).
    rewrite <- (map_map (@snd _ _) Z.to_nat), zip3_sizes in A by assumption.
    split.
    + apply (f_equal (@length _)) in A. rewrite !length_map in A. lia.
    + rewrite <- (map_map (@length _) Z.of_nat), A, map_map.
      rewrite <- (map_id samples) at 2. apply map_ext_in.
      intros n Hin'. rewrite Forall_forall in Hn. specialize (Hn n Hin').
      lia.
Qed.


(** C10.  A control index that is the position of no category, as the
    default -1, sends every sample of every category to the pool of the
    categories that are not the control: the control pool is empty, and
    the false-positive component has no values and not-a-number for the
    five statistics. *)
Theorem unmatched_control_idx_has_no_control
    (means std_dev : list F) (samples : list Z) (walks now : Z)
    (self : MonteCarlo F G) (control_idx : Z) (ws : list (walk F)) (g' : G) :
  __init__ means std_dev samples walks now = Ok self ->
  (control_idx < 0 \/ Z.of_nat (categories self) <= control_idx)%Z ->
  gen_dists self = Ok (ws, g') ->
  pool_walks control_idx ws = [concat (concat ws); []] /\
  (forall (criteria : F) (test_cri : string),
     exists false_neg,
       apply_criteria self control_idx criteria test_cri
       = Ok (false_neg, (np_empty, nan, nan, nan, nan, nan), g')).
Proof.
  intros E Hc Gen.
  destruct (init_inv _ _ _ _ _ E) as (L1 & L2 & ->).
  unfold gen_dists in Gen; simpl in Gen, Hc.
  destruct (gen_walks_length _ _ _ Gen) as [_ A].
  rewrite zip3_length in A by assumption.
  assert (A' : Forall (fun w : walk F => length w <= length means)%nat ws).
  { rewrite Forall_forall in *. intros w Hin. rewrite (A w Hin). lia. }
  destruct (pools_unmatched A' Hc) as [P1 P2].
  split.
  - now rewrite pool_walks_spec, P1, P2.
  - intros cr t. unfold apply_criteria, apply_criteria_from, gen_dists; simpl.
    rewrite Gen; simpl. rewrite score_spec.
    unfold false_positives. rewrite P2. simpl. now eexists.
Qed.

End GenDists.

(** *** What numpy refuses *)

Section GenerationLimits.

Import Binary64.
Import Counter.
Import Scenario.
Local Open Scope float_scope.

(** C5, as stated: a sample count that is not negative need not be one
    numpy can draw, nor a standard deviation that is not negative one it
    accepts.  [MonteCarlo([0], [1], [2**63], 1)] is built, its standard
    deviation and its sample count are not negative, and [gen_dists]
    yields no walk: the first draw raises [ValueError].  The same holds
    of [MonteCarlo([0], [-0.0], [1], 1)]. *)
Lemma oversized_count_yields_nothing :
  __init__ [0] [1] [9223372036854775808]%Z 1%Z 0%Z = Ok oversized_count /\
  Forall (fun s => fleb (of_nat 0) s = true) (std_devs oversized_count) /\
  Forall (fun n => (0 <= n)%Z) (samples oversized_count) /\
  (0 <= walks oversized_count)%Z /\
  gen_dists oversized_count
  = Raise (ValueError "Maximum allowed dimension exceeded") /\
  gen_dists negative_zero_std = Raise (ValueError "scale < 0").
Proof.
  split; [reflexivity|]. split; [repeat constructor|].
  split; [repeat constructor; discriminate|].
  split; [discriminate|]. split; vm_compute; reflexivity.
Qed.


End GenerationLimits.

(** ** Scoring *)

Section Scoring.

Context {F G : Type} `{Float F} `{RandomState F G}.

Lemma describe_values (l : list F) : Permutation (values (describe l)) l.
Proof.
  destruct l as [|x l]; simpl.
  - constructor.
  - apply (np_sort_perm (x :: l)).
Qed.

(** C6.  [apply_criteria] does not raise on the walks of a generator, and
    a pool without misclassified samples is reported as no values and
    not-a-number for the five statistics, be it the false negatives or
    the false positives; without walks both are.  In particular an
    instance with 0 walks reports both pools so. *)
Theorem empty_pool_is_nan (control_idx : Z) (criteria : F)
    (test_cri : string) (ws : list (walk F)) (g : G) :
  (exists false_neg false_pos,
     apply_criteria_from (Ok (ws, g)) control_idx criteria test_cri
     = Ok (false_neg, false_pos, g) /\
     (filter (fun x => fltb x criteria)
             (getitem (pool_walks control_idx ws) FAIL) = [] ->
      false_neg = (np_empty, nan, nan, nan, nan, nan)) /\
     (filter (fun x => fltb criteria x)
             (getitem (pool_walks control_idx ws) PASS) = [] ->
      false_pos = (np_empty, nan, nan, nan, nan, nan)) /\
     (ws = [] ->
      false_neg = (np_empty, nan, nan, nan, nan, nan) /\
      false_pos = (np_empty, nan, nan, nan, nan, nan))) /\
  (forall self : MonteCarlo F G,
     walks self = 0%Z ->
     apply_criteria self control_idx criteria test_cri
     = Ok ((np_empty, nan, nan, nan, nan, nan),
           (np_empty, nan, nan, nan, nan, nan), _rng self)).
Proof.
  split.
  - exists (describe (false_negatives control_idx criteria ws)),
           (describe (false_positives control_idx criteria ws)).
    rewrite pool_walks_spec. unfold getitem, FAIL, PASS. cbn [nth].
    split; [|split; [|split]].
    + unfold apply_criteria_from; simpl. now rewrite score_spec.
    + unfold false_negatives. intros E. now rewrite E.
    + unfold false_positives, fgtb. intros E. now rewrite E.
    + now intros ->.
  - intros self W. unfold apply_criteria, gen_dists. now rewrite W.
Qed.

(** C7.  [test_cri] has no part in the result: two calls that differ in
    it only return the same value, on an instance and on the walks of any
    generator.  Whatever its value, the false negatives are the samples
    of the pool of the other categories that are strictly less than the
    threshold, and the false positives the samples of the control pool
    that are strictly greater. *)
Theorem test_cri_is_ignored (self : MonteCarlo F G)
    (gen : result (list (walk F) * G)) (ws : list (walk F))
    (control_idx : Z) (criteria : F) (test_cri test_cri' : string) :
  apply_criteria self control_idx criteria test_cri
  = apply_criteria self control_idx criteria test_cri' /\
  apply_criteria_from gen control_idx criteria test_cri
  = apply_criteria_from gen control_idx criteria test_cri' /\
  Permutation
    (values (fst (score control_idx criteria test_cri ws)))
    (filter (fun x => fltb x criteria)
            (getitem (pool_walks control_idx ws) FAIL)) /\
  Permutation
    (values (snd (score control_idx criteria test_cri ws)))
    (filter (fun x => fltb criteria x)
            (getitem (pool_walks control_idx ws) PASS)).
Proof.
  split; [reflexivity|]. split; [reflexivity|].
  rewrite score_spec, pool_walks_spec. simpl.
  split; apply describe_values.
Qed.

End Scoring.

(** ** Order of the walks *)

Section Order.

Import Real.

(** Over the reals, where equal numbers are one value, two sequences of
    walks that hold, for every category, the same multiset of samples are
    scored the same, whatever the samples. *)
Lemma real_order_independent (G : Type) (g : G)
    (control_idx : Z) (criteria : real) (test_cri : string)
    (ws1 ws2 : list (walk real)) :
  (forall k, Permutation (category_samples k ws1) (category_samples k ws2)) ->
  apply_criteria_from (Ok (ws1, g)) control_idx criteria test_cri
  = apply_criteria_from (Ok (ws2, g)) control_idx criteria test_cri.
Proof.
  intros Hk. unfold apply_criteria_from; simpl.
  now rewrite (score_by_multiset real_sort_order control_idx criteria
                 test_cri ws1 ws2 Hk).
Qed.

(** The same holds, in particular, for two orders of the same walks. *)
Corollary apply_criteria_walk_order (G : Type) (g : G)
    (control_idx : Z) (criteria : real) (test_cri : string)
    (ws1 ws2 : list (walk real)) :
  Permutation ws1 ws2 ->
  apply_criteria_from (Ok (ws1, g)) control_idx criteria test_cri
  = apply_criteria_from (Ok (ws2, g)) control_idx criteria test_cri.
Proof.
  intros P. unfold apply_criteria_from; simpl.
  rewrite (score_by_multiset real_sort_order control_idx criteria
             test_cri ws1 ws2); [reflexivity|].
  intros k. now apply category_samples_perm.
Qed.

End Order.

(** Comparisons and divisions of given reals are settled by [lra]. *)
Ltac real_decide :=
  repeat match goal with
    | |- context [Rlt_dec ?a ?b] => destruct (Rlt_dec a b); [try lra|try lra]
    | |- context [Rle_dec ?a ?b] => destruct (Rle_dec a b); [try lra|try lra]
    | |- context [Req_dec_T ?a ?b] =>
        destruct (Req_dec_T a b); [try lra|try lra]
    end.

Section RealTestSuite.

Import Real.
Local Open Scope R_scope.

Lemma filter_less_cons (c a : R) (l : list real) :
  filter (fun x => fltb x (Fin c)) (Fin a :: l)
  = if Rlt_dec a c then Fin a :: filter (fun x => fltb x (Fin c)) l
    else filter (fun x => fltb x (Fin c)) l.
Proof. simpl. now destruct (Rlt_dec a c). Qed.

Lemma filter_greater_cons (c a : R) (l : list real) :
  filter (fun x => fltb (Fin c) x) (Fin a :: l)
  = if Rlt_dec c a then Fin a :: filter (fun x => fltb (Fin c) x) l
    else filter (fun x => fltb (Fin c) x) l.
Proof. simpl. now destruct (Rlt_dec c a). Qed.

(** The statistics of two distinct reals. *)
Lemma describe_two (a b : R) :
  a < b ->
  describe [Fin b; Fin a]
  = ([Fin a; Fin b], Fin a, Fin ((a + b) / 2), Fin ((a + b) / 2), Fin b,
     Fin ((b - a) / 2)).
Proof.
  intros Hab.
  assert (S : np_sort [Fin b; Fin a] = [Fin a; Fin b]).
  { cbn [np_sort fold_right insert]. rewrite real_sort_lt.
    now destruct (Rlt_dec a b). }
  unfold describe. cbv zeta. rewrite S.
  assert (Mean : np_mean [Fin a; Fin b] = Fin ((a + b) / 2)).
  { unfold np_mean, np_sum. cbn. real_decide. f_equal. lra. }
  assert (Median : np_median [Fin a; Fin b] = Fin ((a + b) / 2)).
  { unfold np_median.
    assert (S' : np_sort [Fin a; Fin b] = [Fin a; Fin b]).
    { cbn [np_sort fold_right insert]. rewrite real_sort_lt.
      destruct (Rlt_dec b a); [lra|reflexivity]. }
    rewrite S'. cbv zeta. rewrite real_isnan. cbn [last length Nat.even].
    cbn [Nat.div Nat.divmod fst Nat.sub nth]. exact Mean. }
  assert (Std : np_std [Fin a; Fin b] = Fin ((b - a) / 2)).
  { unfold np_std. cbv zeta. rewrite Mean. unfold np_mean, np_sum. cbn.
    real_decide. unfold sqrt.
    match goal with
    | |- context [Rlt_dec ?v 0] =>
        replace v with ((b - a) / 2 * ((b - a) / 2)) by field
    end.
    destruct (Rlt_dec _ 0) as [Neg|_]; [nra|].
    f_equal. apply sqrt_square. lra. }
  rewrite Mean, Median, Std.
  unfold np_min, np_max, np_minimum, np_maximum. cbn. rewrite !real_isnan.
  real_decide. reflexivity.
Qed.

(** Scenario A over the reals: the numbers of C1, without rounding. *)
Lemma scenario_false_results_real (G : Type) (g : G) :
  apply_criteria_from (Ok ([RealScenario.real_walk_false_results], g))
                      2%Z (Fin 4) default_test_cri
  = Ok (([Fin 2; Fin 3], Fin 2, Fin (5 / 2), Fin (5 / 2), Fin 3, Fin (1 / 2)),
        ([Fin 5; Fin 6], Fin 5, Fin (11 / 2), Fin (11 / 2), Fin 6,
         Fin (1 / 2)), g).
Proof.
  unfold apply_criteria_from; simpl bind. rewrite score_spec.
  assert (FN : false_negatives 2 (Fin 4) [RealScenario.real_walk_false_results]
               = [Fin 3; Fin 2]).
  { unfold false_negatives, non_control_pool, RealScenario.real_walk_false_results.
    cbn [flat_map enumerate length seq combine select fst snd app
         Z.of_nat Pos.of_succ_nat Pos.succ Z.eqb Pos.eqb Bool.eqb].
    rewrite !filter_less_cons. real_decide. reflexivity. }
  assert (FP : false_positives 2 (Fin 4) [RealScenario.real_walk_false_results]
               = [Fin 6; Fin 5]).
  { unfold false_positives, control_pool, RealScenario.real_walk_false_results,
      fgtb.
    cbn [flat_map enumerate length seq combine select fst snd app
         Z.of_nat Pos.of_succ_nat Pos.succ Z.eqb Pos.eqb Bool.eqb].
    rewrite !filter_greater_cons. real_decide. reflexivity. }
  rewrite FN, FP, !describe_two by lra.
  repeat f_equal; lra.
Qed.

End RealTestSuite.

(** ** Instances of the theorems *)

Section Instances.

Import Binary64.
Import Counter.
Import Scenario.
Local Open Scope float_scope.

Lemma gen_dists_shape_witness :
  exists ws g',
    gen_dists simulator = Ok (ws, g') /\
    Z.of_nat (length ws) = 2%Z /\
    (2%Z = 0%Z -> ws = []) /\
    Forall (fun w => length w = categories simulator /\
                     map (fun dist => Z.of_nat (length dist)) w = [2; 3]%Z) ws.
Proof.
  apply (@gen_dists_shape float nat _ _ max_size
           (@counter_normal_spec float _ max_size (Z.le_refl max_size))
           [0; 10] [1; 2] [2; 3]%Z 2%Z 0%Z simulator).
  - reflexivity.
  - repeat (apply Forall_cons; [reflexivity|]). apply Forall_nil.
  - repeat (apply Forall_cons; [vm_compute; split; discriminate|]).
    apply Forall_nil.
  - discriminate.
Defined.


Lemma unmatched_control_idx_witness :
  pool_walks default_control_idx simulator_walks
  = [concat (concat simulator_walks); []] /\
  (forall (criteria : float) (test_cri : string),
     exists false_neg,
       apply_criteria simulator default_control_idx criteria test_cri
       = Ok (false_neg, (np_empty, nan, nan, nan, nan, nan), 10%nat)).
Proof.
  apply (@unmatched_control_idx_has_no_control float nat _ _
           [0; 10] [1; 2] [2; 3]%Z 2%Z 0%Z simulator
           default_control_idx simulator_walks 10%nat).
  - reflexivity.
  - left. reflexivity.
  - vm_compute. reflexivity.
Defined.

Lemma empty_pool_is_nan_witness :
  apply_criteria_from (Ok ([walk_pass], 0%nat)) 2%Z 5 default_test_cri
  = Ok ((np_empty, nan, nan, nan, nan, nan),
        (np_empty, nan, nan, nan, nan, nan), 0%nat).
Proof.
  destruct (proj1 (empty_pool_is_nan 2%Z 5 default_test_cri [walk_pass] 0%nat))
    as (false_neg & false_pos & E & Neg & Pos & _).
  rewrite E, Neg, Pos; reflexivity.
Defined.

End Instances.


(** * Further properties of the class *)

(** ** Generation: consecutive runs, nothing to draw, refused sizes *)

Section MoreGeneration.

Context {F G : Type} `{Float F} `{RandomState F G}.

Lemma gen_walks_add (params : list (F * F * Z)) (n m : nat) (g : G) :
  gen_walks (n + m) g params
  = ('(ws1, g1) <- gen_walks n g params ;;
     '(ws2, g2) <- gen_walks m g1 params ;;
     Ok (ws1 ++ ws2, g2)).
Proof.
  revert g. induction n as [|n IH]; intros g; simpl.
  - now destruct (gen_walks m g params) as [[ws2 g2]|e].
  - destruct (draw_dists g params) as [[dists g1]|e]; simpl; [|reflexivity].
    rewrite IH.
    destruct (gen_walks n g1 params) as [[ws1 g2]|e]; simpl; [|reflexivity].
    now destruct (gen_walks m g2 params) as [[ws2 g3]|e].
Qed.

(** X1.  A run of [a + b] walks is a run of [a] walks followed by a run
    of [b] walks on the same instance, whose random source the first run
    has advanced: the walks of the second follow those of the first, and
    the source ends in the same state.  An exception of either run is the
    exception of the whole. *)
Theorem gen_dists_consecutive_runs (self : MonteCarlo F G) (a b : Z) :
  (0 <= a)%Z -> (0 <= b)%Z -> walks self = (a + b)%Z ->
  gen_dists self
  = ('(ws1, g1) <- gen_dists (continue_with self a (_rng self)) ;;
     '(ws2, g2) <- gen_dists (continue_with self b g1) ;;
     Ok (ws1 ++ ws2, g2)).
Proof.
  intros Ha Hb W. unfold gen_dists, continue_with; simpl.
  rewrite W, Z2Nat.inj_add by assumption.
  apply gen_walks_add.
Qed.

Lemma gen_walks_no_params (n : nat) (g : G) :
  gen_walks n g (@nil (F * F * Z)) = Ok (repeat [] n, g).
Proof.
  induction n as [|n IH]; simpl.
  - reflexivity.
  - now rewrite IH.
Qed.

Lemma pools_of_empty_walks (c : Z) (n : nat) :
  non_control_pool c (repeat (@nil (list F)) n) = [] /\
  control_pool c (repeat (@nil (list F)) n) = [].
Proof.
  unfold non_control_pool, control_pool.
  induction n as [|n [IH1 IH2]]; simpl; auto.
Qed.

(** X2.  Without categories, as for [MonteCarlo()], construction succeeds;
    [gen_dists] then yields one empty walk per requested walk and never
    asks the random source for a draw, and [apply_criteria] reports both
    pools as empty, whatever the control index and the threshold. *)
Theorem no_categories (walks now : Z) :
  exists self : MonteCarlo F G,
    __init__ [] [] [] walks now = Ok self /\
    gen_dists self = Ok (repeat [] (Z.to_nat walks), seed now) /\
    (forall (control_idx : Z) (criteria : F) (test_cri : string),
       apply_criteria self control_idx criteria test_cri
       = Ok ((np_empty, nan, nan, nan, nan, nan),
             (np_empty, nan, nan, nan, nan, nan), seed now)).
Proof.
  eexists. split; [reflexivity|].
  assert (Gen : gen_dists
                  {| means := @nil F; std_devs := []; samples := [];
                     walks := walks; categories := 0; _rng := seed now |}
                = Ok (repeat [] (Z.to_nat walks), seed now))
    by apply gen_walks_no_params.
  split; [exact Gen|].
  intros c cr t. unfold apply_criteria, apply_criteria_from.
  simpl length. rewrite Gen. simpl bind. rewrite score_spec.
  unfold false_negatives, false_positives.
  destruct (pools_of_empty_walks c (Z.to_nat walks)) as [-> ->].
  reflexivity.
Qed.

Lemma zip3_in_sizes (a b : list F) (c : list Z) (n : Z) :
  length a = length b -> length a = length c -> In n c ->
  exists p, In p (zip3 a b c) /\ snd p = n.
Proof.
  intros E1 E2 Hin. rewrite <- (zip3_sizes a b c E1 E2) in Hin.
  apply in_map_iff in Hin. destruct Hin as (p & Hp & Hin). now exists p.
Qed.

Lemma draw_dists_refused (R : normal_refuses_negative_size F G)
    (params : list (F * F * Z)) (g : G) :
  (exists p, In p params /\ (snd p < 0)%Z) ->
  exists msg, draw_dists g params = Raise (ValueError msg).
Proof.
  revert g. induction params as [|[[m s] n] params IH]; intros g (p & Hin & Hp).
  - destruct Hin.
  - simpl. destruct (normal g m s n) as [[dist g1]|[msg]] eqn:E; simpl.
    + destruct Hin as [<-|Hin].
      * destruct (R g m s n Hp) as (msg & E'). congruence.
      * destruct (IH g1) as (msg & E'); [now exists p|].
        rewrite E'. simpl. now exists msg.
    + now exists msg.
Qed.

(** X3.  [__init__] does not look at the sample counts: an instance with
    a negative one is built, and the error comes from numpy when the first
    walk is drawn.  With at least one walk to draw [gen_dists] raises
    [ValueError], and so does [apply_criteria]; with none, nothing is
    drawn and nothing is raised. *)
Theorem negative_sample_count (R : normal_refuses_negative_size F G)
    (means std_dev : list F) (samples : list Z) (walks now : Z)
    (self : MonteCarlo F G) (n : Z) :
  __init__ means std_dev samples walks now = Ok self ->
  In n samples -> (n < 0)%Z ->
  ((1 <= walks)%Z ->
   exists msg,
     gen_dists self = Raise (ValueError msg) /\
     forall (control_idx : Z) (criteria : F) (test_cri : string),
       apply_criteria self control_idx criteria test_cri
       = Raise (ValueError msg)) /\
  ((walks <= 0)%Z -> gen_dists self = Ok ([], _rng self)).
Proof.
  intros E Hin Hn.
  destruct (init_inv _ _ _ _ _ E) as (L1 & L2 & ->).
  unfold apply_criteria, gen_dists; simpl. split.
  - intros Hw.
    destruct (Z.to_nat walks) as [|k] eqn:Ek; [lia|]. simpl.
    destruct (@zip3_in_sizes means std_dev samples n L1 L2 Hin)
      as (p & Hp & Hs).
    destruct (draw_dists_refused R (zip3 means std_dev samples) (seed now))
      as (msg & E'); [exists p; split; [exact Hp|lia]|].
    rewrite E'. simpl. exists msg. auto.
  - intros Hw. replace (Z.to_nat walks) with 0%nat by lia. reflexivity.
Qed.

End MoreGeneration.

(** ** Pooling: nothing lost, the control pool, additivity *)

Section MorePooling.

Context {F G : Type} `{Float F} `{RandomState F G}.

Lemma select_both (c : Z) (l : list (nat * list F)) :
  Permutation (flat_map (select c false) l ++ flat_map (select c true) l)
              (flat_map snd l).
Proof.
  rewrite <- flat_map_app_perm.
  rewrite (flat_map_in_ext _ snd); [reflexivity|].
  intros [idx dist] _. unfold select; simpl.
  destruct (Z.of_nat idx =? c)%Z; simpl; now rewrite ?app_nil_r.
Qed.

Lemma enumerate_snd (w : walk F) : flat_map snd (enumerate w) = concat w.
Proof.
  unfold enumerate. generalize 0%nat.
  induction w as [|d w IH]; intros m; simpl.
  - reflexivity.
  - now rewrite IH.
Qed.

Lemma pools_partition (c : Z) (ws : list (walk F)) :
  Permutation (non_control_pool c ws ++ control_pool c ws)
              (concat (concat ws)).
Proof.
  unfold non_control_pool, control_pool.
  rewrite <- flat_map_app_perm.
  induction ws as [|w ws IH]; simpl.
  - constructor.
  - rewrite concat_app. apply Permutation_app; [|exact IH].
    rewrite select_both. now rewrite enumerate_snd.
Qed.

(** X4.  Every sample of every array of every walk goes to exactly one
    of the two pools: [all_dists[FAIL]] and [all_dists[PASS]] together
    hold the samples of the walks, each as often as it was drawn. *)
Theorem pools_lose_nothing (control_idx : Z) (ws : list (walk F)) :
  Permutation (getitem (pool_walks control_idx ws) FAIL
               ++ getitem (pool_walks control_idx ws) PASS)
              (concat (concat ws)).
Proof. rewrite pool_walks_spec. apply pools_partition. Qed.

Lemma flat_map_single (f : nat -> list F) (k n : nat) :
  (k < n)%nat ->
  flat_map (fun i => if (i =? k)%nat then f i else []) (seq 0 n) = f k.
Proof.
  intros Hk.
  replace n with (k + S (n - S k))%nat by lia.
  rewrite seq_app, flat_map_app. simpl. rewrite Nat.eqb_refl.
  rewrite !flat_map_nil.
  - now rewrite app_nil_r.
  - intros i Hi. apply in_seq in Hi.
    destruct (Nat.eqb_spec i k); [lia|reflexivity].
  - intros i Hi. apply in_seq in Hi.
    destruct (Nat.eqb_spec i k); [lia|reflexivity].
Qed.

Lemma control_of_walk (k : nat) (w : walk F) :
  flat_map (select (Z.of_nat k) true) (enumerate w) = nth k w [].
Proof.
  rewrite (@select_walk F (Z.of_nat k) true (Nat.max (length w) (S k)) w)
    by lia.
  rewrite (flat_map_in_ext _ (fun i => if (i =? k)%nat then nth i w [] else [])).
  - apply flat_map_single. lia.
  - intros i _. unfold select; simpl.
    destruct (Nat.eqb_spec i k) as [->|N].
    + now rewrite Z.eqb_refl.
    + destruct (Z.eqb_spec (Z.of_nat i) (Z.of_nat k)); [lia|reflexivity].
Qed.

Lemma control_pool_category (k : nat) (ws : list (walk F)) :
  control_pool (Z.of_nat k) ws = category_samples k ws.
Proof.
  unfold control_pool, category_samples.
  apply flat_map_in_ext. intros w _. apply control_of_walk.
Qed.

(** X5.  With a control index [k] that is not negative, [all_dists[PASS]]
    is array [k] of the first walk followed by array [k] of the second,
    and so on; a walk with no array [k] adds nothing. *)
Theorem control_pool_is_category (k : nat) (ws : list (walk F)) :
  getitem (pool_walks (Z.of_nat k) ws) PASS = category_samples k ws.
Proof. rewrite pool_walks_spec. apply control_pool_category. Qed.

(** X6.  Pooling is additive over walks: the pools of the walks [ws1]
    followed by [ws2] are the pools of [ws1] followed by those of [ws2];
    so the score of one long run is the score of the pooled samples of
    its parts. *)
Theorem pool_walks_app (control_idx : Z) (ws1 ws2 : list (walk F)) :
  pool_walks control_idx (ws1 ++ ws2)
  = [getitem (pool_walks control_idx ws1) FAIL
     ++ getitem (pool_walks control_idx ws2) FAIL;
     getitem (pool_walks control_idx ws1) PASS
     ++ getitem (pool_walks control_idx ws2) PASS].
Proof.
  rewrite !pool_walks_spec. unfold non_control_pool, control_pool.
  now rewrite !flat_map_app.
Qed.

Lemma flat_map_length_const {B : Type} (f : B -> list F) (l : list B)
    (m : nat) :
  Forall (fun x => length (f x) = m) l ->
  length (flat_map f l) = (length l * m)%nat.
Proof.
  induction 1 as [|x l Hx _ IH]; simpl.
  - reflexivity.
  - now rewrite length_app, Hx, IH.
Qed.

Lemma concat_length (w : walk F) :
  length (concat w) = list_sum (map (@length F) w).
Proof.
  induction w as [|d w IH]; simpl.
  - reflexivity.
  - now rewrite length_app, IH.
Qed.

Lemma concat_concat_length (ws : list (walk F)) (m : nat) :
  Forall (fun w => length (concat w) = m) ws ->
  length (concat (concat ws)) = (length ws * m)%nat.
Proof.
  induction 1 as [|w ws Hw _ IH]; simpl.
  - reflexivity.
  - now rewrite concat_app, length_app, Hw, IH.
Qed.


End MorePooling.

(** ** Scoring: what is reported *)

Section MoreScoring.

Context {F : Type} `{Float F}.

Lemma fold_minimum_in (a : list F) (x : F) :
  In (fold_left np_minimum a x) (x :: a).
Proof.
  revert x. induction a as [|y a IH]; intros x; simpl.
  - now left.
  - destruct (IH (np_minimum x y)) as [E|Hin]; [|now right; right].
    rewrite <- E. unfold np_minimum.
    destruct (fleb x y || isnan x); [now left|now right; left].
Qed.

Lemma fold_maximum_in (a : list F) (x : F) :
  In (fold_left np_maximum a x) (x :: a).
Proof.
  revert x. induction a as [|y a IH]; intros x; simpl.
  - now left.
  - destruct (IH (np_maximum x y)) as [E|Hin]; [|now right; right].
    rewrite <- E. unfold np_maximum.
    destruct (fleb y x || isnan x); [now left|now right; left].
Qed.

(** The extremes of the misclassified samples are two of them. *)
Lemma describe_extremes (l : list F) :
  l <> [] ->
  In (minimum (describe l)) l /\ In (maximum (describe l)) l.
Proof.
  intros Hl. destruct l as [|x l]; [congruence|].
  assert (P := np_sort_perm (x :: l)).
  unfold describe, minimum, maximum; cbv zeta.
  destruct (np_sort (x :: l)) as [|y v] eqn:E.
  - apply Permutation_nil in P. discriminate.
  - split; apply (Permutation_in _ P); simpl.
    + apply fold_minimum_in.
    + apply fold_maximum_in.
Qed.

Lemma describe_nonempty (l : list F) : values (describe l) <> [] -> l <> [].
Proof. now destruct l. Qed.

(** X8.  When there are false negatives, the reported minimum and maximum
    are samples of the pool of the other categories that are strictly
    below the threshold; when there are false positives, the reported
    minimum and maximum are samples of the control pool strictly above
    it. *)
Theorem extremes_are_misclassified (control_idx : Z) (criteria : F)
    (test_cri : string) (ws : list (walk F)) :
  let false_neg := fst (score control_idx criteria test_cri ws) in
  let false_pos := snd (score control_idx criteria test_cri ws) in
  (values false_neg <> [] ->
   In (minimum false_neg) (getitem (pool_walks control_idx ws) FAIL) /\
   In (maximum false_neg) (getitem (pool_walks control_idx ws) FAIL) /\
   fltb (minimum false_neg) criteria = true /\
   fltb (maximum false_neg) criteria = true) /\
  (values false_pos <> [] ->
   In (minimum false_pos) (getitem (pool_walks control_idx ws) PASS) /\
   In (maximum false_pos) (getitem (pool_walks control_idx ws) PASS) /\
   fltb criteria (minimum false_pos) = true /\
   fltb criteria (maximum false_pos) = true).
Proof.
  cbv zeta. rewrite score_spec, pool_walks_spec.
  unfold getitem, FAIL, PASS. cbn [nth fst snd].
  unfold false_negatives, false_positives, fgtb.
  split; intros Hv; apply describe_nonempty, describe_extremes in Hv;
    destruct Hv as [Hmin Hmax];
    apply filter_In in Hmin; apply filter_In in Hmax; tauto.
Qed.

Lemma filter_none (p : F -> bool) (l : list F) :
  (forall x, p x = false) -> filter p l = [].
Proof.
  intros Hp. induction l as [|x l IH]; simpl.
  - reflexivity.
  - now rewrite Hp.
Qed.

(** An arithmetic in which not-a-number is below or above nothing leaves
    both pools empty for a threshold that is not a number. *)
Lemma score_nan_threshold (control_idx : Z) (test_cri : string)
    (ws : list (walk F)) :
  (forall x, fltb x nan = false) -> (forall x, fltb nan x = false) ->
  score control_idx nan test_cri ws = (nan_stats, nan_stats).
Proof.
  intros Hr Hl. rewrite score_spec.
  unfold false_negatives, false_positives, fgtb.
  now rewrite !filter_none.
Qed.

(** What is reported was compared with the threshold and found on the
    wrong side of it. *)
Lemma reported_compared (control_idx : Z) (criteria : F)
    (test_cri : string) (ws : list (walk F)) (x : F) :
  (In x (values (fst (score control_idx criteria test_cri ws))) ->
   fltb x criteria = true) /\
  (In x (values (snd (score control_idx criteria test_cri ws))) ->
   fltb criteria x = true).
Proof.
  rewrite score_spec. cbn [fst snd].
  unfold false_negatives, false_positives, fgtb.
  split; intros Hin.
  - assert (P := describe_values
                   (filter (fun x => fltb x criteria)
                           (non_control_pool control_idx ws))).
    apply (Permutation_in _ P), filter_In in Hin. tauto.
  - assert (P := describe_values
                   (filter (fun x => fltb criteria x)
                           (control_pool control_idx ws))).
    apply (Permutation_in _ P), filter_In in Hin. tauto.
Qed.

End MoreScoring.

(** ** Scoring in binary64: not-a-number and ties *)

Section Binary64Comparisons.

Import Binary64.
Import SpecFloat FloatOps FloatAxioms.

Lemma float_ltb_nan_r (x : float) : PrimFloat.ltb x PrimFloat.nan = false.
Proof.
  rewrite ltb_spec. unfold SFltb.
  replace (Prim2SF PrimFloat.nan) with S754_nan by reflexivity.
  now destruct (Prim2SF x).
Qed.

Lemma float_ltb_nan_l (x : float) : PrimFloat.ltb PrimFloat.nan x = false.
Proof.
  rewrite ltb_spec. unfold SFltb.
  replace (Prim2SF PrimFloat.nan) with S754_nan by reflexivity.
  reflexivity.
Qed.

Lemma float_eqb_not_ltb (x y : float) :
  PrimFloat.eqb x y = true -> PrimFloat.ltb x y = false.
Proof.
  rewrite eqb_spec, ltb_spec. unfold SFeqb, SFltb.
  now destruct (SFcompare (Prim2SF x) (Prim2SF y)) as [[ | | ]|].
Qed.

(** X9.  In binary64, a threshold that is not a number reports nothing:
    no sample is below or above it, and both pools come back empty with
    not-a-number statistics, whatever the walks. *)
Theorem nan_threshold_reports_nothing (control_idx : Z) (test_cri : string)
    (ws : list (walk float)) :
  score control_idx nan test_cri ws
  = ((np_empty, nan, nan, nan, nan, nan), (np_empty, nan, nan, nan, nan, nan)).
Proof.
  apply (score_nan_threshold control_idx test_cri ws).
  - exact float_ltb_nan_r.
  - exact float_ltb_nan_l.
Qed.

(** X10.  In binary64, a sample that is not a number is never reported,
    and neither is a sample equal to the threshold: the comparisons are
    strict, so a tie is no false negative and no false positive. *)
Theorem nan_and_ties_not_reported (control_idx : Z) (criteria : float)
    (test_cri : string) (ws : list (walk float)) (x : float) :
  (In x (values (fst (score control_idx criteria test_cri ws))) ->
   x <> nan /\ feqb x criteria = false) /\
  (In x (values (snd (score control_idx criteria test_cri ws))) ->
   x <> nan /\ feqb criteria x = false).
Proof.
  destruct (reported_compared control_idx criteria test_cri ws x)
    as [Neg Pos].
  split; intros Hin; [apply Neg in Hin|apply Pos in Hin]; simpl in Hin; split.
  - intros ->. now rewrite float_ltb_nan_l in Hin.
  - simpl. destruct (PrimFloat.eqb x criteria) eqn:E; [|reflexivity].
    apply float_eqb_not_ltb in E. congruence.
  - intros ->. now rewrite float_ltb_nan_r in Hin.
  - simpl. destruct (PrimFloat.eqb criteria x) eqn:E; [|reflexivity].
    apply float_eqb_not_ltb in E. congruence.
Qed.

End Binary64Comparisons.

(** ** Scoring over the reals: order and bounds of the statistics *)

Section RealStatistics.

Import Real.
Local Open Scope R_scope.

Lemma insert_reals (x : R) (l : list R) :
  exists l',
    insert (Fin x) (map Fin l) = map Fin l' /\
    Permutation l' (x :: l) /\
    (StronglySorted Rle l -> StronglySorted Rle l').
Proof.
  induction l as [|y l (l' & E & P & S)]; cbn [map insert].
  - exists [x]. repeat split; auto. intros _. repeat constructor.
  - rewrite real_sort_lt. destruct (Rlt_dec y x) as [L|NL].
    + exists (y :: l'). rewrite E. split; [reflexivity|]. split.
      * rewrite P. apply perm_swap.
      * intros Hs. inversion Hs as [|? ? Hs' Hy]; subst.
        constructor; [auto|].
        apply (Permutation_Forall (Permutation_sym P)).
        constructor; [lra|exact Hy].
    + exists (x :: y :: l). split; [reflexivity|]. split; [reflexivity|].
      intros Hs. constructor; [exact Hs|].
      inversion Hs as [|? ? Hs' Hy]; subst.
      constructor; [lra|].
      apply (Forall_impl _ (P := Rle y)); [intros r Hr; lra|exact Hy].
Qed.

(** [np.sort] of real numbers: the same numbers, ascending. *)
Lemma sort_reals (rs : list R) :
  exists srt,
    np_sort (map Fin rs) = map Fin srt /\
    Permutation srt rs /\ StronglySorted Rle srt.
Proof.
  induction rs as [|x rs (srt & E & P & S)]; cbn [map np_sort fold_right].
  - exists []. repeat split; constructor.
  - fold (np_sort (map Fin rs)). rewrite E.
    destruct (insert_reals x srt) as (l' & E' & P' & S').
    exists l'. split; [exact E'|]. split; [|auto].
    rewrite P'. now constructor.
Qed.

Lemma fold_minimum_sorted (x : R) (l : list R) :
  Forall (Rle x) l -> fold_left np_minimum (map Fin l) (Fin x) = Fin x.
Proof.
  induction 1 as [|y l Hy _ IH]; cbn [map fold_left].
  - reflexivity.
  - replace (np_minimum (Fin x) (Fin y)) with (Fin x); [exact IH|].
    unfold np_minimum; simpl. now destruct (Rle_dec x y).
Qed.

Lemma fold_maximum_sorted (x : R) (l : list R) :
  StronglySorted Rle (x :: l) ->
  fold_left np_maximum (map Fin l) (Fin x) = Fin (last (x :: l) 0).
Proof.
  revert x. induction l as [|y l IH]; intros x Hs; cbn [map fold_left].
  - reflexivity.
  - inversion Hs as [|? ? Hs' Hx]; subst.
    inversion Hx as [|? ? Hxy _]; subst.
    replace (np_maximum (Fin x) (Fin y)) with (Fin y).
    + rewrite (IH y Hs'). reflexivity.
    + unfold np_maximum. rewrite real_isnan; simpl.
      destruct (Rle_dec y x); simpl; [f_equal; lra|reflexivity].
Qed.

Lemma sorted_below_last (l : list R) :
  StronglySorted Rle l -> Forall (fun r => r <= last l 0) l.
Proof.
  induction 1 as [|x l Hs IH Hx].
  - constructor.
  - destruct l as [|y l].
    + constructor; [simpl; lra|constructor].
    + change (last (x :: y :: l) 0) with (last (y :: l) 0).
      constructor; [|exact IH].
      inversion Hx; subst. inversion IH; subst. lra.
Qed.

Lemma fold_fadd_reals (l : list R) (a : R) :
  fold_left fadd (map Fin l) (Fin a) = Fin (fold_left Rplus l a).
Proof.
  revert a. induction l as [|y l IH]; intros a; cbn [map fold_left].
  - reflexivity.
  - apply IH.
Qed.

Lemma fold_plus_lower (lo : R) (l : list R) (a : R) :
  Forall (Rle lo) l -> a + lo * INR (length l) <= fold_left Rplus l a.
Proof.
  intros Hl. revert a. induction Hl as [|y l Hy _ IH]; intros a.
  - simpl. lra.
  - cbn [fold_left]. change (length (y :: l)) with (S (length l)).
    rewrite S_INR. specialize (IH (a + y)). nra.
Qed.

Lemma fold_plus_upper (hi : R) (l : list R) (a : R) :
  Forall (fun r => r <= hi) l -> fold_left Rplus l a <= a + hi * INR (length l).
Proof.
  intros Hl. revert a. induction Hl as [|y l Hy _ IH]; intros a.
  - simpl. lra.
  - cbn [fold_left]. change (length (y :: l)) with (S (length l)).
    rewrite S_INR. specialize (IH (a + y)). nra.
Qed.

(** The mean of real numbers is a real number between any two bounds of
    them. *)
Lemma mean_reals (l : list R) :
  l <> [] ->
  exists m,
    np_mean (map Fin l) = Fin m /\
    (forall lo, Forall (Rle lo) l -> lo <= m) /\
    (forall hi, Forall (fun r => r <= hi) l -> m <= hi).
Proof.
  intros Hl.
  assert (Hn : 0 < INR (length l)).
  { apply lt_0_INR. destruct l; [congruence|simpl; lia]. }
  unfold np_mean, np_sum. rewrite length_map.
  change (of_nat 0) with (Fin 0). rewrite fold_fadd_reals.
  change (of_nat (length l)) with (Fin (INR (length l))).
  cbn [fdiv real_float div].
  destruct (Req_dec_T (INR (length l)) 0) as [Z|_]; [lra|].
  eexists. split; [reflexivity|].
  set (s := fold_left Rplus l 0). set (n := INR (length l)) in *.
  assert (Q : s / n * n = s) by (field; lra).
  split.
  - intros lo Hlo. assert (B := fold_plus_lower 0 Hlo). fold s n in B. nra.
  - intros hi Hhi. assert (B := fold_plus_upper 0 Hhi). fold s n in B. nra.
Qed.

Lemma last_reals (l : list R) (d : R) :
  last (map Fin l) (Fin d) = Fin (last l d).
Proof.
  induction l as [|x l IH]; [reflexivity|].
  destruct l as [|y l]; [reflexivity|]. exact IH.
Qed.

Lemma nth_reals (l : list R) (i : nat) :
  (i < length l)%nat -> nth i (map Fin l) nan = Fin (nth i l 0).
Proof.
  intros Hi. rewrite (nth_indep _ nan (Fin 0)) by now rewrite length_map.
  apply map_nth.
Qed.

Lemma median_reals (srt : list R) (lo hi : R) :
  srt <> [] ->
  np_sort (map Fin srt) = map Fin srt ->
  Forall (fun r => lo <= r <= hi) srt ->
  exists md, np_median (map Fin srt) = Fin md /\ lo <= md <= hi.
Proof.
  intros Hne Hs Hb. unfold np_median. rewrite Hs. cbv zeta.
  change (of_nat 0) with (Fin 0). rewrite last_reals, real_isnan.
  rewrite length_map.
  assert (Hn : (0 < length srt)%nat) by (destruct srt; [congruence|simpl; lia]).
  assert (Hhalf : (length srt / 2 < length srt)%nat)
    by (apply Nat.div_lt; lia).
  assert (Hin : forall i, (i < length srt)%nat -> lo <= nth i srt 0 <= hi).
  { intros i Hi. rewrite Forall_forall in Hb. apply Hb. now apply nth_In. }
  destruct (Nat.even (length srt)).
  - rewrite !nth_reals by lia.
    set (a := nth (length srt / 2 - 1) srt 0).
    set (b := nth (length srt / 2) srt 0).
    destruct (@mean_reals [a; b]) as (md & E & Lo & Hi); [discriminate|].
    exists md. split; [exact E|].
    assert (Ha : lo <= a <= hi) by (apply Hin; lia).
    assert (Hb' : lo <= b <= hi) by (apply Hin; lia).
    split; [apply Lo|apply Hi];
      repeat first [apply Forall_nil|apply Forall_cons; [lra|]].
  - rewrite !nth_reals by lia.
    set (a := nth (length srt / 2) srt 0).
    destruct (@mean_reals [a]) as (md & E & Lo & Hi); [discriminate|].
    exists md. split; [exact E|].
    assert (Ha : lo <= a <= hi) by (apply Hin; lia).
    split; [apply Lo|apply Hi];
      repeat first [apply Forall_nil|apply Forall_cons; [lra|]].
Qed.

Lemma std_reals (l : list R) :
  l <> [] -> exists s, np_std (map Fin l) = Fin s /\ 0 <= s.
Proof.
  intros Hl. unfold np_std. cbv zeta.
  destruct (mean_reals Hl) as (mu & -> & _).
  rewrite map_map.
  rewrite (map_ext _ (fun r => Fin ((r - mu) * (r - mu))))
    by reflexivity.
  rewrite <- (map_map (fun r => (r - mu) * (r - mu)) Fin).
  destruct (@mean_reals (map (fun r => (r - mu) * (r - mu)) l))
    as (q & -> & Lo & _).
  - destruct l; [congruence|discriminate].
  - assert (Hq : 0 <= q).
    { apply Lo. apply Forall_forall. intros r Hr.
      apply in_map_iff in Hr. destruct Hr as (r0 & <- & _).
      apply (Rle_0_sqr (r0 - mu)). }
    cbn [fsqrt real_float sqrt].
    destruct (Rlt_dec q 0); [lra|].
    eexists. split; [reflexivity|]. apply sqrt_pos.
Qed.

(** What is reported of real numbers that are not none. *)
Lemma describe_reals (rs : list R) :
  rs <> [] ->
  exists srt lo hi m md s,
    describe (map Fin rs)
    = (map Fin srt, Fin lo, Fin m, Fin md, Fin hi, Fin s) /\
    Permutation srt rs /\ StronglySorted Rle srt /\
    lo = hd 0 srt /\ hi = last srt 0 /\
    lo <= m <= hi /\ lo <= md <= hi /\ 0 <= s.
Proof.
  intros Hne.
  destruct (sort_reals rs) as (srt & E & P & S).
  assert (Hs : srt <> []).
  { intros ->. apply Permutation_nil in P. congruence. }
  assert (Again : np_sort (map Fin srt) = map Fin srt).
  { rewrite <- E at 2. apply (np_sort_unique real_sort_order).
    rewrite <- E. apply np_sort_perm. }
  assert (Hi := sorted_below_last S).
  destruct srt as [|x l]; [congruence|].
  assert (Lo : Forall (Rle x) (x :: l)).
  { inversion S; subst. constructor; [lra|assumption]. }
  assert (B : Forall (fun r => x <= r <= last (x :: l) 0) (x :: l)).
  { rewrite Forall_forall in *. intros r Hr. split; [apply Lo|apply Hi]; auto. }
  destruct (mean_reals Hs) as (m & Em & Mlo & Mhi).
  destruct (median_reals Hs Again B) as (md & Emd & Bmd).
  destruct (std_reals Hs) as (s & Es & Bs).
  exists (x :: l), x, (last (x :: l) 0), m, md, s.
  split.
  - destruct rs as [|r rs]; [congruence|].
    unfold describe. cbv zeta. change (Fin r :: map Fin rs) with (map Fin (r :: rs)).
    rewrite E, Em, Emd, Es.
    cbn [map np_min np_max].
    rewrite fold_minimum_sorted by (inversion S; assumption).
    now rewrite fold_maximum_sorted.
  - repeat split; auto; try tauto.
Qed.

Lemma filter_reals (p : real -> bool) (l : list real) :
  (forall x, p x = true -> x <> NaN) ->
  exists rs, filter p l = map Fin rs.
Proof.
  intros Hp. induction l as [|x l (rs & E)]; simpl.
  - now exists [].
  - destruct (p x) eqn:Ex; [|now exists rs].
    destruct x as [|r]; [now apply Hp in Ex|].
    exists (r :: rs). simpl. now rewrite E.
Qed.

Lemma map_Fin_nonempty (rs : list R) :
  values (describe (map Fin rs)) <> [] -> rs <> [].
Proof. now destruct rs. Qed.

(** X11.  Over the reals, the values reported for a pool that is not
    empty are real numbers in ascending order, the reported minimum is
    the first of them and the reported maximum the last. *)
Theorem real_values_ascending (control_idx : Z) (criteria : real)
    (test_cri : string) (ws : list (walk real)) (pool : PoolStats real) :
  pool = fst (score control_idx criteria test_cri ws) \/
  pool = snd (score control_idx criteria test_cri ws) ->
  values pool <> [] ->
  exists rs,
    values pool = map Fin rs /\ StronglySorted Rle rs /\
    minimum pool = Fin (hd 0 rs) /\ maximum pool = Fin (last rs 0).
Proof.
  rewrite score_spec. cbn [fst snd].
  unfold false_negatives, false_positives, fgtb.
  intros [-> | ->] Hv.
  - destruct (@filter_reals (fun x => fltb x criteria)
                (non_control_pool control_idx ws)) as (rs & E).
    { intros [|r] Hx; [discriminate|discriminate]. }
    rewrite E in *. apply map_Fin_nonempty in Hv.
    destruct (describe_reals Hv) as (srt & lo & hi & m & md & s & D & _ & S
                                     & -> & -> & _).
    exists srt. now rewrite D.
  - destruct (@filter_reals (fun x => fltb criteria x)
                (control_pool control_idx ws)) as (rs & E).
    { intros [|r] Hx; [destruct criteria; discriminate|discriminate]. }
    rewrite E in *. apply map_Fin_nonempty in Hv.
    destruct (describe_reals Hv) as (srt & lo & hi & m & md & s & D & _ & S
                                     & -> & -> & _).
    exists srt. now rewrite D.
Qed.

End RealStatistics.

(** ** Scoring over the reals: moving the threshold *)

Section RealThreshold.

Import Real.
Local Open Scope R_scope.

Lemma filter_length_le (p q : real -> bool) (l : list real) :
  (forall x, p x = true -> q x = true) ->
  (length (filter p l) <= length (filter q l))%nat.
Proof.
  intros Hpq. induction l as [|x l IH]; simpl.
  - lia.
  - destruct (p x) eqn:Ep.
    + rewrite (Hpq x Ep). simpl. lia.
    + destruct (q x); simpl; lia.
Qed.

Lemma ltb_threshold_up (a b : R) (x : real) :
  a <= b -> fltb x (Fin a) = true -> fltb x (Fin b) = true.
Proof.
  intros Hab. destruct x as [|r]; simpl; [discriminate|].
  destruct (Rlt_dec r a), (Rlt_dec r b); try easy. lra.
Qed.

Lemma ltb_threshold_down (a b : R) (x : real) :
  a <= b -> fltb (Fin b) x = true -> fltb (Fin a) x = true.
Proof.
  intros Hab. destruct x as [|r]; simpl; [discriminate|].
  destruct (Rlt_dec b r), (Rlt_dec a r); try easy. lra.
Qed.

(** X13.  Over the reals, raising the threshold keeps every false
    negative and can only add some, and keeps no false positive that was
    not one before: the number of false negatives does not decrease and
    the number of false positives does not increase. *)
Theorem real_threshold_monotone (control_idx : Z) (a b : R)
    (test_cri : string) (ws : list (walk real)) :
  a <= b ->
  let low := score control_idx (Fin a) test_cri ws in
  let high := score control_idx (Fin b) test_cri ws in
  incl (values (fst low)) (values (fst high)) /\
  incl (values (snd high)) (values (snd low)) /\
  (length (values (fst low)) <= length (values (fst high)))%nat /\
  (length (values (snd high)) <= length (values (snd low)))%nat.
Proof.
  intros Hab. cbv zeta. rewrite !score_spec. cbn [fst snd].
  unfold false_negatives, false_positives, fgtb.
  set (fail := non_control_pool control_idx ws).
  set (pass := control_pool control_idx ws).
  assert (V := fun l : list real => describe_values l).
  split; [|split; [|split]].
  - intros x Hx. apply (Permutation_in _ (V _)) in Hx.
    apply (Permutation_in _ (Permutation_sym (V _))).
    apply filter_In in Hx. apply filter_In.
    split; [tauto|]. now apply (ltb_threshold_up x Hab).
  - intros x Hx. apply (Permutation_in _ (V _)) in Hx.
    apply (Permutation_in _ (Permutation_sym (V _))).
    apply filter_In in Hx. apply filter_In.
    split; [tauto|]. now apply (ltb_threshold_down x Hab).
  - rewrite !(Permutation_length (V _)). apply filter_length_le.
    intros x. apply (ltb_threshold_up x Hab).
  - rewrite !(Permutation_length (V _)). apply filter_length_le.
    intros x. apply (ltb_threshold_down x Hab).
Qed.

End RealThreshold.

(** ** Instances of the further properties *)

(** The stand-in source refuses a negative size, in any arithmetic. *)
Lemma counter_refuses_negative_size (F : Type) `{Float F} :
  @normal_refuses_negative_size F nat Counter.counter.
Proof.
  intros g loc scale size Hs. simpl. unfold Counter.counter_normal.
  destruct (signbit scale); [now eexists|].
  destruct (Z.ltb_spec size 0) as [_|L]; [now eexists|lia].
Qed.

Section MoreInstances.

Import Binary64.
Import Counter.
Import Scenario.
Import EdgeScenario.
Local Open Scope float_scope.

Lemma gen_dists_consecutive_runs_witness :
  gen_dists five_walks
  = ('(ws1, g1) <- gen_dists (continue_with five_walks 2 (_rng five_walks)) ;;
     '(ws2, g2) <- gen_dists (continue_with five_walks 3 g1) ;;
     Ok (ws1 ++ ws2, g2)).
Proof.
  apply gen_dists_consecutive_runs.
  - discriminate.
  - discriminate.
  - reflexivity.
Defined.

Lemma negative_sample_count_witness :
  exists msg,
    gen_dists negative_count = Raise (ValueError msg) /\
    forall (control_idx : Z) (criteria : float) (test_cri : string),
      apply_criteria negative_count control_idx criteria test_cri
      = Raise (ValueError msg).
Proof.
  apply (proj1 (@negative_sample_count float nat _ _
                  (@counter_refuses_negative_size float _)
                  [0; 10] [1; 2] [2; -3]%Z 1%Z 0%Z negative_count (-3)%Z
                  eq_refl (or_intror (or_introl eq_refl)) eq_refl)).
  discriminate.
Defined.


Lemma extremes_are_misclassified_witness :
  fltb (maximum (fst (score 2%Z 4 default_test_cri [walk_false_results]))) 4
  = true /\
  fltb 4 (minimum (snd (score 2%Z 4 default_test_cri [walk_false_results])))
  = true.
Proof.
  pose proof (extremes_are_misclassified 2%Z 4 default_test_cri
                [walk_false_results]) as P.
  cbv zeta in P. destruct P as [Neg Pos]. split.
  - apply Neg. vm_compute. discriminate.
  - apply Pos. vm_compute. discriminate.
Defined.

End MoreInstances.

Section MoreRealInstances.

Import Real.
Local Open Scope R_scope.

Lemma real_scenario_score :
  score 2%Z (Fin 4) default_test_cri [RealScenario.real_walk_false_results]
  = (([Fin 2; Fin 3], Fin 2, Fin (5 / 2), Fin (5 / 2), Fin 3, Fin (1 / 2)),
     ([Fin 5; Fin 6], Fin 5, Fin (11 / 2), Fin (11 / 2), Fin 6,
      Fin (1 / 2))).
Proof.
  pose proof (scenario_false_results_real tt) as E.
  unfold apply_criteria_from in E. cbn [bind] in E. congruence.
Qed.

Lemma real_values_ascending_witness :
  exists rs,
    values (fst (score 2%Z (Fin 4) default_test_cri
                   [RealScenario.real_walk_false_results]))
    = map Fin rs /\ StronglySorted Rle rs /\
    minimum (fst (score 2%Z (Fin 4) default_test_cri
                    [RealScenario.real_walk_false_results]))
    = Fin (hd 0 rs) /\
    maximum (fst (score 2%Z (Fin 4) default_test_cri
                    [RealScenario.real_walk_false_results]))
    = Fin (last rs 0).
Proof.
  apply (real_values_ascending 2%Z (Fin 4) default_test_cri
           [RealScenario.real_walk_false_results]).
  - left. reflexivity.
  - rewrite real_scenario_score. discriminate.
Defined.

Lemma real_threshold_monotone_witness :
  incl (values (fst (score 2%Z (Fin 4) default_test_cri
                       [RealScenario.real_walk_false_results])))
       (values (fst (score 2%Z (Fin 5) default_test_cri
                       [RealScenario.real_walk_false_results]))) /\
  incl (values (snd (score 2%Z (Fin 5) default_test_cri
                       [RealScenario.real_walk_false_results])))
       (values (snd (score 2%Z (Fin 4) default_test_cri
                       [RealScenario.real_walk_false_results]))) /\
  (length (values (fst (score 2%Z (Fin 4) default_test_cri
                          [RealScenario.real_walk_false_results])))
   <= length (values (fst (score 2%Z (Fin 5) default_test_cri
                             [RealScenario.real_walk_false_results]))))%nat /\
  (length (values (snd (score 2%Z (Fin 5) default_test_cri
                          [RealScenario.real_walk_false_results])))
   <= length (values (snd (score 2%Z (Fin 4) default_test_cri
                             [RealScenario.real_walk_false_results]))))%nat.
Proof.
  apply (@real_threshold_monotone 2%Z 4 5 default_test_cri
           [RealScenario.real_walk_false_results]).
  lra.
Defined.

End MoreRealInstances.

(** ** The order of the walks in binary64 *)

Section SortApartZero.

Context {F : Type} `{Float F}.

Variable O : SortOrderApartZero F.

Lemma insert_comm_apart (x y : F) (l : list F) :
  negative_zero x = false -> negative_zero y = false ->
  Forall (fun x => negative_zero x = false) l ->
  insert x (insert y l) = insert y (insert x l).
Proof.
  destruct O as [asym trans total]. intros Px Py Pl.
  assert (between : forall a b c,
             negative_zero a = false -> negative_zero b = false ->
             sort_lt c a = false -> sort_lt c b = true -> sort_lt a b = true).
  { intros a b c Pa Pb Hca Hcb.
    destruct (sort_lt a b) eqn:Eab; [reflexivity|].
    destruct (sort_lt b a) eqn:Eba.
    - rewrite (trans _ _ _ Hcb Eba) in Hca. discriminate.
    - rewrite (total _ _ Pa Pb Eab Eba), Hcb in Hca. discriminate. }
  induction Pl as [|z l Pz Pl IH]; cbn [insert].
  - destruct (sort_lt y x) eqn:Eyx, (sort_lt x y) eqn:Exy; try reflexivity.
    + rewrite (asym _ _ Eyx) in Exy. discriminate.
    + now rewrite (total _ _ Px Py Exy Eyx).
  - destruct (sort_lt z y) eqn:Ezy, (sort_lt z x) eqn:Ezx;
      cbn [insert]; rewrite ?Ezy, ?Ezx.
    + now rewrite IH.
    + now rewrite (between _ _ _ Px Py Ezx Ezy), ?Ezy.
    + now rewrite (between _ _ _ Py Px Ezy Ezx), ?Ezx.
    + destruct (sort_lt y x) eqn:Eyx, (sort_lt x y) eqn:Exy;
        rewrite ?Ezy, ?Ezx; try reflexivity.
      * rewrite (asym _ _ Eyx) in Exy. discriminate.
      * now rewrite (total _ _ Px Py Exy Eyx).
Qed.

(** [np.sort] is a function of the multiset of its argument when the
    argument holds no negative zero. *)
Lemma np_sort_unique_apart (a b : list F) :
  Permutation a b -> Forall (fun x => negative_zero x = false) a ->
  np_sort a = np_sort b.
Proof.
  induction 1 as [|x a b P IH|x y a|a b c P1 IH1 P2 IH2]; intros Pa; simpl.
  - reflexivity.
  - inversion Pa; subst. now rewrite IH.
  - inversion Pa as [|? ? Py Pa']; subst.
    inversion Pa' as [|? ? Px Pa'']; subst.
    apply insert_comm_apart; auto.
    apply (Permutation_Forall (Permutation_sym (np_sort_perm a))), Pa''.
  - rewrite IH1 by assumption. apply IH2.
    apply (Permutation_Forall P1), Pa.
Qed.

Lemma describe_unique_apart (l1 l2 : list F) :
  Permutation l1 l2 -> Forall (fun x => negative_zero x = false) l1 ->
  describe l1 = describe l2.
Proof.
  intros P Pl. unfold describe.
  destruct l1 as [|x1 l1], l2 as [|x2 l2].
  - reflexivity.
  - apply Permutation_nil in P. discriminate.
  - symmetry in P. apply Permutation_nil in P. discriminate.
  - now rewrite (np_sort_unique_apart P Pl).
Qed.

Lemma pools_proper (c : Z) (ws : list (walk F)) :
  Forall (Forall (Forall (fun x => negative_zero x = false))) ws ->
  Forall (fun x => negative_zero x = false) (non_control_pool c ws) /\
  Forall (fun x => negative_zero x = false) (control_pool c ws).
Proof.
  intros Hws.
  assert (All : Forall (fun x => negative_zero x = false) (concat (concat ws))).
  { apply Forall_concat. apply Forall_concat.
    apply (Forall_impl _
             (P := Forall (Forall (fun x => negative_zero x = false))));
      [|exact Hws].
    auto. }
  apply (Permutation_Forall (Permutation_sym (pools_partition c ws))) in All.
  now apply Forall_app in All.
Qed.

(** [apply_criteria] is a function of the multisets of the categories'
    samples when no sample is the negative zero. *)
Lemma score_by_multiset_apart (c : Z) (criteria : F) (test_cri : string)
    (ws1 ws2 : list (walk F)) :
  Forall (Forall (Forall (fun x => negative_zero x = false))) ws1 ->
  (forall k, Permutation (category_samples k ws1) (category_samples k ws2)) ->
  score c criteria test_cri ws1 = score c criteria test_cri ws2.
Proof.
  intros Hws Hk. rewrite !score_spec.
  destruct (pools_proper c Hws) as [Pf Pp].
  unfold false_negatives, false_positives, non_control_pool, control_pool in *.
  f_equal; apply describe_unique_apart.
  - apply filter_perm, pool_perm, Hk.
  - apply Forall_forall. intros x Hx. apply filter_In in Hx.
    rewrite Forall_forall in Pf. now apply Pf.
  - apply filter_perm, pool_perm, Hk.
  - apply Forall_forall. intros x Hx. apply filter_In in Hx.
    rewrite Forall_forall in Pp. now apply Pp.
Qed.

End SortApartZero.

Section Binary64Order.

Import Binary64.
Import SpecFloat FloatOps FloatAxioms.

(** Every comparison of exponents and mantissas in the goal, by cases. *)
Ltac compare_cases :=
  repeat match goal with
    | |- context [Pos.compare_cont Eq ?a ?b] =>
        change (Pos.compare_cont Eq a b) with (Pos.compare a b)
    end;
  repeat match goal with
    | |- context [Z.compare ?a ?b] => destruct (Z.compare_spec a b)
    | |- context [Pos.compare ?a ?b] => destruct (Pos.compare_spec a b)
    end;
  cbn; try subst; try reflexivity; try discriminate; try lia;
  try (intros; discriminate); try (intros; lia).

Lemma spec_sort_lt_asym (f1 f2 : spec_float) :
  spec_sort_lt f1 f2 = true -> spec_sort_lt f2 f1 = false.
Proof.
  unfold spec_sort_lt.
  destruct f1 as [[|]|[|]| |[|] m1 e1], f2 as [[|]|[|]| |[|] m2 e2]; cbn;
    try reflexivity; try discriminate; compare_cases.
Qed.

Lemma spec_sort_lt_total (f1 f2 : spec_float) :
  f1 <> S754_zero true -> f2 <> S754_zero true ->
  spec_sort_lt f1 f2 = false -> spec_sort_lt f2 f1 = false -> f1 = f2.
Proof.
  unfold spec_sort_lt. intros N1 N2. revert N1 N2.
  destruct f1 as [[|]|[|]| |[|] m1 e1], f2 as [[|]|[|]| |[|] m2 e2]; cbn;
    try reflexivity; try discriminate; try congruence; intros N1 N2;
    compare_cases.
Qed.

Lemma spec_sort_lt_trans (f1 f2 f3 : spec_float) :
  spec_sort_lt f1 f2 = true -> spec_sort_lt f2 f3 = true ->
  spec_sort_lt f1 f3 = true.
Proof.
  unfold spec_sort_lt.
  destruct f1 as [[|]|[|]| |[|] m1 e1], f2 as [[|]|[|]| |[|] m2 e2],
    f3 as [[|]|[|]| |[|] m3 e3]; cbn;
    try reflexivity; try discriminate; compare_cases.
Qed.

Lemma float_isnan (x : float) :
  isnan x = match Prim2SF x with S754_nan => true | _ => false end.
Proof.
  unfold isnan. cbn [feqb binary64]. rewrite eqb_spec. unfold SFeqb.
  destruct (Prim2SF x) as [[|]|[|]| |[|] m e]; cbn; try reflexivity;
    rewrite Z.compare_refl;
    change (Pos.compare_cont Eq m m) with (Pos.compare m m);
    now rewrite Pos.compare_refl.
Qed.

(** [np.sort] orders binary64 values as their specifications. *)
Lemma float_sort_lt (x y : float) :
  sort_lt x y = spec_sort_lt (Prim2SF x) (Prim2SF y).
Proof.
  unfold sort_lt. rewrite !float_isnan. cbn [fltb binary64].
  rewrite ltb_spec. unfold SFltb, spec_sort_lt.
  destruct (Prim2SF x) as [[|]|[|]| |[|] m1 e1],
           (Prim2SF y) as [[|]|[|]| |[|] m2 e2]; cbn; try reflexivity;
    rewrite orb_false_r;
    match goal with
    | |- context [match ?c with Eq => _ | Lt => _ | Gt => _ end] =>
        now destruct c
    end.
Qed.

Lemma float_not_negative_zero (x : float) :
  negative_zero x = false -> Prim2SF x <> S754_zero true.
Proof.
  intros Hx E.
  assert (Z : x = (-0)%float) by (apply Prim2SF_inj; rewrite E; reflexivity).
  subst x. vm_compute in Hx. discriminate.
Qed.

(** [np.sort] orders the binary64 values totally, the two zeros apart. *)
Lemma binary64_sort_order : SortOrderApartZero float.
Proof.
  split.
  - intros x y. rewrite !float_sort_lt. apply spec_sort_lt_asym.
  - intros x y z. rewrite !float_sort_lt. apply spec_sort_lt_trans.
  - intros x y Hx Hy. rewrite !float_sort_lt. intros Hxy Hyx.
    apply Prim2SF_inj.
    apply spec_sort_lt_total; auto using float_not_negative_zero.
Qed.




End Binary64Order.
